(** * Crypto-Tracker: the market-data collection loop of [cryptoTracker.py]

    A shallow embedding of [main] (startup provisioning of the search
    indices, then the polling loop) and of [send_email_alert], followed by
    the properties of the collection loop.

    Everything outside the file (the exchange clients of [public.*], the
    Elasticsearch client [es], the SQLAlchemy session [db.session], SMTP and
    [time.sleep]) is an external collaborator.  Its observable effect is kept
    in [State]; whether one of its calls returns or raises is read from an
    oracle ([World], and the two methods of [Exchange]), so that every
    theorem below holds for every way these calls return or raise unless it
    assumes otherwise.  A call that never returns is not modelled. *)

From Stdlib Require Import ZArith List Lia PrimFloat.
From stdpp Require Import base gmap sets list strings.

Open Scope Z_scope.

(* 50000.01 has no exact binary64 value: the literal is, as in Python,
   the nearest one. *)
Set Warnings "-inexact-float".

(** ** Exceptions and results *)

(** Instances of Python's [Exception]: what [except Exception] catches.
    [KeyboardInterrupt] and [SystemExit] are not [Exception]s; they are the
    external shutdown signal and are not part of the model. *)
Inductive exn : Type :=
  | ValueError (msg : string)              (* time.sleep of a negative length *)
  | OverflowError (msg : string)           (* time.sleep of a length it cannot convert *)
  | OSError (msg : string)                 (* a system call that failed *)
  | ResourceAlreadyExists (index : string) (* es.indices.create on an existing index *)
  | External (msg : string).               (* raised by a collaborator *)

Inductive result (A : Type) : Type :=
  | Ok (a : A)
  | Raise (e : exn).
Arguments Ok {A} a.
Arguments Raise {A} e.

(** ** Data model *)

(** [class MarketData(db.Model)].  [md_id] and [md_timestamp] are filled in
    by the database when the row is inserted (autoincrement key, and
    [default=datetime.utcnow]); they are [None] on a freshly built object. *)
Record MarketData : Type := {
  md_id : option nat;
  md_exchange : string;
  md_product : string;
  md_price : float;
  md_timestamp : option Z
}.

(** [MarketData(exchange=..., product=..., price=...)], line 167. *)
Definition MarketData_init (ex product : string) (price : float) : MarketData :=
  {| md_id := None; md_exchange := ex; md_product := product;
     md_price := price; md_timestamp := None |}.

(** The two f-strings handed to [send_email_alert] at lines 175-176, kept
    structured: "Price Alert: {product} on {exchange}" and
    "The price of {product} has reached {price} on {exchange}". *)
Inductive Subject : Type :=
  | PriceAlert (product ex : string).
Inductive Body : Type :=
  | PriceReached (product : string) (price : float) (ex : string).

Record Email : Type := { subject : Subject; body : Body }.

(** The calls of [logging]. *)
Inductive LogEntry : Type :=
  | InfoStarted (rate : Z) (threshold : float)
  | InfoConnected (ex : string)
  | InfoIndexCreated (product : string)
  | WarningInitiating
  | InfoPrice (ex product : string) (price : float)
  | InfoEmailSent (s : Subject)
  | ErrorEmailFailed (e : exn)
  | ErrorTracking (e : exn).

(** Calls made to the collaborators, in program order, with their outcome. *)
Inductive Call : Type :=
  | CallSleep (secs : Z)
  | CallExists (index : string)
  | CallCreate (index : string) (failed : option exn)
  | CallTicker (ex : string) (failed : option exn)
  | CallGetPrice (ex product : string) (r : result float)
  | CallCommit (failed : option exn)
  | CallSendmail (e : Email) (failed : option exn).

(** An exchange client ([BitFinex_Market()] and the like): the attributes
    [exchange] and [products] (a dict from product to index, in insertion
    order) and the two methods the loop calls.  What a method does at the
    [t]-th cycle is up to the exchange. *)
Record Exchange : Type := {
  exchange : string;
  products : list (string * string);
  record_ticker : nat -> option exn;
  get_price : nat -> string -> result float
}.

(** The environment variables read at import time. *)
Record Config : Type := {
  PRICE_THRESHOLD : float;
  MARKET_REFRESH_RATE : Z
}.

(** The collaborators' behaviour.  A commit is named by the cycle and the
    object just added, a call of the search store by its index, a delivery
    by the number of alerts sent before it.  [db.session.add] only puts the
    object in the session and does not fail.
    [db_failed_commit] is what the session still holds once [commit] has
    raised: [main] never calls [rollback], so this is whatever SQLAlchemy
    leaves behind, and the model does not fix it.
    [os_sleep_fault] is the answer of the system to a sleep of a length that
    [time.sleep] could convert (Linux refuses 9223372036 seconds, for one).
    A call that never returns is not among the behaviours of a [World]. *)
Record World : Type := {
  os_sleep_fault : Z -> option exn;
  db_create_all : option exn;
  db_commit : nat -> MarketData -> option exn;
  db_failed_commit : list MarketData -> list MarketData;
  es_exists_fault : string -> option exn;
  es_create_fault : string -> option exn;
  smtp_fault : nat -> Email -> option exn
}.

(** ** Program state *)

Record State : Type := {
  es_indices : gset string;      (* indices of the search store *)
  session : list MarketData;     (* db.session: added, not yet committed *)
  table : list MarketData;       (* rows of market_data *)
  emails : list Email;           (* calls of send_email_alert *)
  log : list LogEntry;
  clock : Z;                     (* seconds slept so far *)
  calls : list Call
}.

Definition set_es_indices (f : gset string -> gset string) (st : State) : State :=
  {| es_indices := f (es_indices st); session := session st; table := table st;
     emails := emails st; log := log st; clock := clock st; calls := calls st |}.

Definition set_session (f : list MarketData -> list MarketData) (st : State) : State :=
  {| es_indices := es_indices st; session := f (session st); table := table st;
     emails := emails st; log := log st; clock := clock st; calls := calls st |}.

Definition set_table (f : list MarketData -> list MarketData) (st : State) : State :=
  {| es_indices := es_indices st; session := session st; table := f (table st);
     emails := emails st; log := log st; clock := clock st; calls := calls st |}.

Definition set_emails (f : list Email -> list Email) (st : State) : State :=
  {| es_indices := es_indices st; session := session st; table := table st;
     emails := f (emails st); log := log st; clock := clock st; calls := calls st |}.

Definition set_log (f : list LogEntry -> list LogEntry) (st : State) : State :=
  {| es_indices := es_indices st; session := session st; table := table st;
     emails := emails st; log := f (log st); clock := clock st; calls := calls st |}.

Definition set_clock (f : Z -> Z) (st : State) : State :=
  {| es_indices := es_indices st; session := session st; table := table st;
     emails := emails st; log := log st; clock := f (clock st); calls := calls st |}.

Definition set_calls (f : list Call -> list Call) (st : State) : State :=
  {| es_indices := es_indices st; session := session st; table := table st;
     emails := emails st; log := log st; clock := clock st; calls := f (calls st) |}.

(** ** The state-and-exception monad

    A Python statement either completes or raises; what it did to the state
    before raising stays done. *)
Definition M (A : Type) : Type := State -> result A * State.

Definition ret {A} (a : A) : M A := fun st => (Ok a, st).

Definition raise {A} (e : exn) : M A := fun st => (Raise e, st).

Definition bind {A B} (m : M A) (k : A -> M B) : M B :=
  fun st =>
    match m st with
    | (Ok a, st') => k a st'
    | (Raise e, st') => (Raise e, st')
    end.

(** [try: m except Exception as e: h e] *)
Definition try_except (m : M unit) (h : exn -> M unit) : M unit :=
  fun st =>
    match m st with
    | (Ok tt, st') => (Ok tt, st')
    | (Raise e, st') => h e st'
    end.

Definition modify (f : State -> State) : M unit := fun st => (Ok tt, f st).

Definition gets {A} (f : State -> A) : M A := fun st => (Ok (f st), st).

Declare Scope py_scope.
Delimit Scope py_scope with py.
Notation "'let*' x ':=' m 'in' k" := (bind m (fun x => k))
  (at level 10, x name, m at level 100, k at level 200) : py_scope.
Notation "m '>>' k" := (bind m (fun _ => k))
  (at level 90, right associativity) : py_scope.
Open Scope py_scope.

(** [for x in l: body x]: the first exception ends the loop. *)
Fixpoint for_each {A} (body : A -> M unit) (l : list A) : M unit :=
  match l with
  | [] => ret tt
  | x :: l' => body x >> for_each body l'
  end.

Definition logging (e : LogEntry) : M unit := modify (set_log (fun l => l ++ [e])).

Definition called (c : Call) : M unit := modify (set_calls (fun l => l ++ [c])).

(** Lift the outcome of a call that returns nothing. *)
Definition outcome (failed : option exn) : M unit :=
  match failed with
  | None => ret tt
  | Some e => raise e
  end.

(** CPython keeps a timeout as a signed 64-bit count of nanoseconds: the
    largest whole number of seconds that fits. *)
Definition PyTime_MAX_SECONDS : Z := 9223372036.

(** [time.sleep(secs)] of an [int].  The length is first converted to
    nanoseconds, which raises [OverflowError] beyond [PyTime_MAX_SECONDS]
    either way; then a negative length raises [ValueError]; then the system
    is asked to sleep, and may refuse. *)
Definition sleep (w : World) (secs : Z) : M unit :=
  called (CallSleep secs) >>
  if (secs <? - PyTime_MAX_SECONDS) || (PyTime_MAX_SECONDS <? secs) then
    raise (OverflowError "timestamp too large to convert to C _PyTime_t")
  else if secs <? 0 then raise (ValueError "sleep length must be non-negative")
  else outcome (os_sleep_fault w secs) >> modify (set_clock (fun c => c + secs)).

(** A length [time.sleep] takes and the system sleeps. *)
Definition sleeps (w : World) (secs : Z) : Prop :=
  0 <= secs <= PyTime_MAX_SECONDS /\ os_sleep_fault w secs = None.

(** ** The program *)

Section Program.

Variable cfg : Config.
Variable w : World.
(** The list built at lines 144-148. *)
Variable exchanges : list Exchange.

(** *** The search store: [es.indices.exists], [es.indices.create] *)

Definition es_indices_exists (index : string) : M bool :=
  called (CallExists index) >>
  outcome (es_exists_fault w index) >>
  gets (fun st => bool_decide (index ∈ es_indices st)).

Definition es_indices_create (index : string) : M unit :=
  let* present := gets (fun st => bool_decide (index ∈ es_indices st)) in
  let failed :=
    match es_create_fault w index with
    | Some e => Some e
    | None => if present then Some (ResourceAlreadyExists index) else None
    end in
  called (CallCreate index failed) >>
  outcome failed >>
  modify (set_es_indices (fun s => {[ index ]} ∪ s)).

(** Lines 154-156, the body of the inner startup loop. *)
Definition ensure_index (product kibana_index : string) : M unit :=
  let* present := es_indices_exists kibana_index in
  (if negb present then es_indices_create kibana_index else ret tt) >>
  logging (InfoIndexCreated product).

(** Lines 151-156. *)
Definition provision : M unit :=
  for_each (fun ex : Exchange =>
      logging (InfoConnected (exchange ex)) >>
      for_each (fun item : string * string => ensure_index (fst item) (snd item))
               (products ex))
    exchanges.

(** *** The price store: [db.session.add], [db.session.commit] *)

Definition db_session_add (d : MarketData) : M unit :=
  modify (set_session (fun s => s ++ [d])).

Definition next_id (rows : list MarketData) : nat :=
  S (list_max (omap md_id rows)).

(** What the column [price] of the SQLite table gives back for a float put
    in it: the float itself, but for -0.0, which comes back as 0.0 (SQLite
    keeps a float with an integral value as an integer). *)
Definition sqlite_real (price : float) : float :=
  if (price =? 0)%float then 0%float else price.

(** INSERT of the pending objects: key and timestamp are assigned here. *)
Fixpoint insert_rows (now : Z) (next : nat) (pending : list MarketData) : list MarketData :=
  match pending with
  | [] => []
  | d :: pending' =>
      {| md_id := Some next; md_exchange := md_exchange d; md_product := md_product d;
         md_price := sqlite_real (md_price d); md_timestamp := Some now |}
      :: insert_rows now (S next) pending'
  end.

Definition flush (st : State) : State :=
  set_session (fun _ => [])
    (set_table (fun rows => rows ++ insert_rows (clock st) (next_id rows) (session st)) st).

(** The commit that follows the [add] of [new_data] in cycle [t]. *)
Definition db_session_commit (t : nat) (new_data : MarketData) : M unit :=
  let failed := db_commit w t new_data in
  called (CallCommit failed) >>
  match failed with
  | None => modify flush
  | Some e => modify (set_session (db_failed_commit w)) >> raise e
  end.

(** *** [send_email_alert], lines 76-91

    The delivery (lines 78-87) is one call of the transport; the [n]-th
    alert of the run fails or not as [smtp_fault n] says. *)
Definition send_email_alert (subject : Subject) (body : Body) : M unit :=
  let msg := {| subject := subject; body := body |} in
  let* n := gets (fun st => length (emails st)) in
  modify (set_emails (fun l => l ++ [msg])) >>
  try_except
    (called (CallSendmail msg (smtp_fault w n msg)) >>
     outcome (smtp_fault w n msg) >>
     logging (InfoEmailSent subject))
    (fun e => logging (ErrorEmailFailed e)).

(** *** The collection loop, lines 160-180 *)

(** Lines 166-177: the body of [for product in exchange.products]. *)
Definition collect_product (t : nat) (ex : Exchange) (product : string) : M unit :=
  let fetched := get_price ex t product in
  called (CallGetPrice (exchange ex) product fetched) >>
  let* price := (match fetched with Ok p => ret p | Raise e => raise e end) in
  let new_data := MarketData_init (exchange ex) product price in
  db_session_add new_data >>
  db_session_commit t new_data >>
  logging (InfoPrice (exchange ex) product price) >>
  if (PRICE_THRESHOLD cfg <? price)%float then
    send_email_alert (PriceAlert product (exchange ex))
                     (PriceReached product price (exchange ex))
  else ret tt.

(** Lines 164-177: the body of [for exchange in exchanges]. *)
Definition collect_exchange (t : nat) (ex : Exchange) : M unit :=
  called (CallTicker (exchange ex) (record_ticker ex t)) >>
  outcome (record_ticker ex t) >>
  for_each (collect_product t ex) (map fst (products ex)).

(** Lines 161-180: one iteration of [while True], the [t]-th. *)
Definition cycle (t : nat) : M unit :=
  sleep w (MARKET_REFRESH_RATE cfg) >>
  try_except
    (for_each (collect_exchange t) exchanges)
    (fun e => logging (ErrorTracking e) >> sleep w 10).

(** [while True]: the iterations [t], [t+1], ..., [t+n-1]. *)
Fixpoint while_true (n : nat) (t : nat) : M unit :=
  match n with
  | O => ret tt
  | S n' => cycle t >> while_true n' (S t)
  end.

(** Lines 140-158: what [main] does before its loop. *)
Definition startup : M unit :=
  outcome (db_create_all w) >>
  logging (InfoStarted (MARKET_REFRESH_RATE cfg) (PRICE_THRESHOLD cfg)) >>
  provision >>
  logging WarningInitiating.

(** [main], lines 139-180, cut after [n] iterations of its loop. *)
Definition main (n : nat) : M unit :=
  startup >> while_true n 0.

End Program.

(** ** Observations on a run *)

(** The alert raised for an observation: the arguments of the call at
    lines 174-177. *)
Definition alert (ex product : string) (price : float) : Email :=
  {| subject := PriceAlert product ex; body := PriceReached product price ex |}.

Fixpoint count {A} (f : A -> bool) (l : list A) : nat :=
  match l with
  | [] => O
  | x :: l' => if f x then S (count f l') else count f l'
  end.

Definition is_fetch (c : Call) : bool :=
  match c with CallGetPrice _ _ _ => true | _ => false end.

Definition is_fetch_ok (c : Call) : bool :=
  match c with CallGetPrice _ _ (Ok _) => true | _ => false end.

Definition is_created (index : string) (c : Call) : bool :=
  match c with
  | CallCreate i None => bool_decide (i = index)
  | _ => false
  end.

Definition is_store_call (c : Call) : bool :=
  match c with CallExists _ | CallCreate _ _ => true | _ => false end.

Definition is_commit_failure (c : Call) : bool :=
  match c with CallCommit (Some _) => true | _ => false end.

(** Fetches attempted, fetches that returned a price, rows written, and
    commits that failed. *)
Definition fetches (st : State) : nat := count is_fetch (calls st).
Definition fetched (st : State) : nat := count is_fetch_ok (calls st).
Definition written (st : State) : nat := length (table st).
Definition commit_failures (st : State) : nat := count is_commit_failure (calls st).

(** The (exchange, product) pairs of a list of exchanges. *)
Definition pairs (l : list Exchange) : nat :=
  list_sum (map (fun ex => length (products ex)) l).

(** An exchange whose ticker push, fetches and commits all succeed,
    whenever they are called. *)
Definition healthy (w : World) (ex : Exchange) : Prop :=
  (forall t, record_ticker ex t = None) /\
  (forall t product, In product (map fst (products ex)) ->
     exists price, get_price ex t product = Ok price /\
       db_commit w t (MarketData_init (exchange ex) product price) = None).

(** An alert of cycle [t] that stands for a price fetched in that cycle,
    above the threshold, whose commit succeeded. *)
Definition committed_alert (cfg : Config) (w : World) (t : nat) (m : Email) : Prop :=
  exists ex product price,
    m = alert (exchange ex) product price /\
    get_price ex t product = Ok price /\
    db_commit w t (MarketData_init (exchange ex) product price) = None /\
    (PRICE_THRESHOLD cfg <? price)%float = true.

(** [st] has the alerts of [st0] and, after them, only committed ones. *)
Definition alerts_since (cfg : Config) (w : World) (t : nat) (st0 st : State) : Prop :=
  exists new, emails st = emails st0 ++ new /\ Forall (committed_alert cfg w t) new.

(** [st] differs from [st0] by calls to the search store only: nothing was
    slept, pushed, fetched, written or sent in between. *)
Definition startup_only (st0 st : State) : Prop :=
  table st = table st0 /\ session st = session st0 /\
  emails st = emails st0 /\ clock st = clock st0 /\
  exists new, calls st = calls st0 ++ new /\
              Forall (fun c => is_store_call c = true) new.

(** The tally of a cycle that started in [st0] with nothing pending: every
    fetch that returned since is a row written since or a commit that failed
    since; fetches that returned are among the fetches attempted, which are
    at most [bound]. *)
Definition tally (st0 : State) (bound : nat) (st : State) : Prop :=
  (written st0 <= written st)%nat /\
  (fetched st0 <= fetched st)%nat /\
  (fetches st0 <= fetches st)%nat /\
  (commit_failures st0 <= commit_failures st)%nat /\
  (fetched st - fetched st0 =
     (written st - written st0) + (commit_failures st - commit_failures st0))%nat /\
  (fetched st - fetched st0 <= fetches st - fetches st0)%nat /\
  (fetches st - fetches st0 <= bound)%nat.

Definition is_tracking_error (entry : LogEntry) : bool :=
  match entry with ErrorTracking _ => true | _ => false end.

(** The errors the handler of the loop has logged. *)
Definition tracking_errors (st : State) : nat := count is_tracking_error (log st).

(** [st] has nothing pending; it has the rows [rows0] and, after them, [k]
    rows, all of exchanges named in [from]; its clock shows [now] and the
    handler of the loop has logged [errors] errors. *)
Definition paused (rows0 : list MarketData) (k : nat) (from : string -> Prop)
    (now : Z) (errors : nat) (st : State) : Prop :=
  session st = [] /\ clock st = now /\ tracking_errors st = errors /\
  exists new, table st = rows0 ++ new /\ length new = k /\
              Forall (fun d => from (md_exchange d)) new.

(** ** A program logic for [M]

    [hoare P m Q E]: from a state in [P], [m] either returns [a] in a state
    of [Q a] or raises [e] in a state of [E e]. *)
Definition hoare {A} (P : State -> Prop) (m : M A)
    (Q : A -> State -> Prop) (E : exn -> State -> Prop) : Prop :=
  forall st, P st ->
    match m st with
    | (Ok a, st') => Q a st'
    | (Raise e, st') => E e st'
    end.

(** ** Concrete runs *)

Module Scenario.

(** A new process on an empty store. *)
Definition start : State :=
  {| es_indices := ∅; session := []; table := []; emails := []; log := [];
     clock := 0; calls := [] |}.

(** Threshold 50000, refresh interval 1. *)
Definition config : Config :=
  {| PRICE_THRESHOLD := 50000; MARKET_REFRESH_RATE := 1 |}.

(** Stores that answer every call; the transport does as [smtp] says. *)
Definition reliable (smtp : nat -> Email -> option exn) : World :=
  {| os_sleep_fault := fun _ => None;
     db_create_all := None;
     db_commit := fun _ _ => None;
     db_failed_commit := fun pending => pending;
     es_exists_fault := fun _ => None;
     es_create_fault := fun _ => None;
     smtp_fault := smtp |}.

Definition delivered : nat -> Email -> option exn := fun _ _ => None.

(** A price store on which every commit fails. *)
Definition locked : World :=
  {| os_sleep_fault := fun _ => None;
     db_create_all := None;
     db_commit := fun _ _ => Some (External "database is locked");
     db_failed_commit := fun pending => pending;
     es_exists_fault := fun _ => None;
     es_create_fault := fun _ => None;
     smtp_fault := delivered |}.

(** A search store that cannot be reached. *)
Definition unreachable : World :=
  {| os_sleep_fault := fun _ => None;
     db_create_all := None;
     db_commit := fun _ _ => None;
     db_failed_commit := fun pending => pending;
     es_exists_fault := fun _ => Some (External "connection refused");
     es_create_fault := fun _ => Some (External "connection refused");
     smtp_fault := delivered |}.

(** An exchange with one product that always answers [price]. *)
Definition quoting (name : string) (price : float) : Exchange :=
  {| exchange := name;
     products := [("BTC-USD", name +:+ ".btc-usd")];
     record_ticker := fun _ => None;
     get_price := fun _ _ => Ok price |}.

Definition exchange1 : Exchange := quoting "exchange1" 100.
Definition exchange2 : Exchange := quoting "exchange2" 60000.

(** An exchange whose [get_price] always raises. *)
Definition exchangeA : Exchange :=
  {| exchange := "A";
     products := [("BTC-USD", "a.btc-usd")];
     record_ticker := fun _ => None;
     get_price := fun _ _ => Raise (External "timed out") |}.

Definition exchangeB : Exchange := quoting "B" 100.

(** An exchange that answers prices but whose ticker push always raises. *)
Definition exchangeT : Exchange :=
  {| exchange := "T";
     products := [("BTC-USD", "t.btc-usd")];
     record_ticker := fun _ => Some (External "bulk index failed");
     get_price := fun _ _ => Ok 100%float |}.

End Scenario.

Ltac run :=
  repeat (unfold collect_exchange, collect_product, db_session_commit, db_session_add,
            send_email_alert, ensure_index, es_indices_create, es_indices_exists,
            try_except, logging, called, outcome, sleep,
            bind, ret, raise, modify, gets; simpl).

(** ** Further observations on a run *)

Definition is_create (c : Call) : bool :=
  match c with CallCreate _ _ => true | _ => false end.

Definition is_sleep (c : Call) : bool :=
  match c with CallSleep _ => true | _ => false end.

(** The (exchange, product) of a row, and the pairs of a list of exchanges
    in registration order. *)
Definition key (d : MarketData) : string * string := (md_exchange d, md_product d).

Definition registered (l : list Exchange) : list (string * string) :=
  flat_map (fun ex => map (fun item => (exchange ex, fst item)) (products ex)) l.

(** [st] has nothing pending, has the rows [rows0] followed by rows of keys
    [keys], and its clock shows [now]. *)
Definition ordered (rows0 : list MarketData) (keys : list (string * string)) (now : Z)
    (st : State) : Prop :=
  session st = [] /\ clock st = now /\
  exists new, table st = rows0 ++ new /\ map key new = keys.

(** An alert that stands for a price fetched, in a cycle from [lo] up to
    [hi], for a product of a registered exchange: the fetch is among the
    calls [made], the price is above the threshold and its commit
    succeeded. *)
Definition collected_alert (cfg : Config) (w : World) (exchanges : list Exchange)
    (lo hi : nat) (made : list Call) (m : Email) : Prop :=
  exists t ex product price,
    (lo <= t < hi)%nat /\
    In ex exchanges /\ In product (map fst (products ex)) /\
    m = alert (exchange ex) product price /\
    get_price ex t product = Ok price /\
    In (CallGetPrice (exchange ex) product (Ok price)) made /\
    db_commit w t (MarketData_init (exchange ex) product price) = None /\
    (PRICE_THRESHOLD cfg <? price)%float = true.

(** Since [st0], [st] has made calls and sent alerts, each a
    [collected_alert] of these calls. *)
Definition alerts_collected (cfg : Config) (w : World) (exchanges : list Exchange)
    (lo hi : nat) (st0 st : State) : Prop :=
  exists made new,
    calls st = calls st0 ++ made /\ emails st = emails st0 ++ new /\
    Forall (collected_alert cfg w exchanges lo hi made) new.




(** [n] times the list [l]. *)
Fixpoint times {A} (n : nat) (l : list A) : list A :=
  match n with
  | O => []
  | S n' => l ++ times n' l
  end.

(** ** The web routes, lines 61-65 and 93-136

    The views read the tables the collector writes; they keep no state of
    their own but Flask's [session], a dictionary carried by the client's
    cookie.  A view is a function of the session (and of the request and the
    tables it reads) that gives the response and the new session. *)

Module Web.

(** [class User(db.Model)] *)
Record User : Type := {
  user_id : nat;
  username : string;
  password : string
}.

(** [methods=['GET', 'POST']]; Flask adds HEAD to a route that takes GET. *)
Inductive Method : Type := GET | HEAD | POST.

Record Request : Type := {
  method : Method;
  form : gmap string string
}.

(** The figure built by [plot]: title, axis labels, and the two series
    given to [axis.plot]. *)
Record Figure : Type := {
  title : string;
  xlabel : string;
  ylabel : string;
  xs : list (option Z);
  ys : list float
}.

Inductive Response : Type :=
  | Template (name : string) (market_data : option (list MarketData))
  | Redirect (endpoint : string)
  | Text (body : string)
  | Plot (fig : Figure).

(** [request.form[key]] on a missing key: werkzeug's [BadRequestKeyError],
    answered with status 400.  A view that returns what Flask cannot make a
    response of: [TypeError], answered with status 500. *)
Inductive HTTPException : Type :=
  | BadRequestKeyError (key : string)
  | InternalServerError (error : string).

(** [User.query.filter_by(username=..., password=...)] *)
Definition filter_by (users : list User) (u p : string) : list User :=
  filter (fun user => username user = u /\ password user = p) users.

(** [index], lines 94-96. *)
Definition index : Response := Template "index.html" None.

(** [login], lines 98-109. *)
Definition login (users : list User) (request : Request) (sess : gmap string string)
    : (HTTPException + Response) * gmap string string :=
  match method request with
  | POST =>
      match form request !! "username" with
      | None => (inl (BadRequestKeyError "username"), sess)
      | Some u =>
          match form request !! "password" with
          | None => (inl (BadRequestKeyError "password"), sess)
          | Some p =>
              match head (filter_by users u p) with
              | Some _ => (inr (Redirect "dashboard"), <["username" := u]> sess)
              | None => (inr (Text "Invalid credentials"), sess)
              end
          end
      end
  | _ => (inr (Template "login.html" None), sess)
  end.

(** [logout], lines 111-114: [session.pop('username', None)]. *)
Definition logout (sess : gmap string string) : Response * gmap string string :=
  (Redirect "index", delete "username" sess).

(** [dashboard], lines 116-121. *)
Definition dashboard (rows : list MarketData) (sess : gmap string string) : Response :=
  match sess !! "username" with
  | None => Redirect "login"
  | Some _ => Template "dashboard.html" (Some rows)
  end.

(** [plot], lines 123-136. *)
Definition plot (rows : list MarketData) (ex product : string) : Response :=
  let data := filter (fun d => md_exchange d = ex /\ md_product d = product) rows in
  let prices := map md_price data in
  let timestamps := map md_timestamp data in
  Plot {| title := product +:+ " prices on " +:+ ex;
          xlabel := "Timestamp"; ylabel := "Price";
          xs := timestamps; ys := prices |}.

(** The routes of the application and what serves them.  [plot] returns
    its [Figure] as it is, which is not a response: Flask answers 500. *)
Inductive Route : Type :=
  | Index
  | Login (request : Request)
  | Logout
  | Dashboard
  | PlotOf (ex product : string).

Definition serve (users : list User) (rows : list MarketData) (r : Route)
    (sess : gmap string string) : (HTTPException + Response) * gmap string string :=
  match r with
  | Index => (inr index, sess)
  | Login request => login users request sess
  | Logout => (inr (fst (logout sess)), snd (logout sess))
  | Dashboard => (inr (dashboard rows sess), sess)
  | PlotOf ex product =>
      match plot rows ex product with
      | Plot _ =>
          (inl (InternalServerError "The view function did not return a valid response"),
           sess)
      | answer => (inr answer, sess)
      end
  end.

(** A client's requests, one after the other, each with the session the
    one before left. *)
Fixpoint browse (users : list User) (rows : list MarketData) (rs : list Route)
    (sess : gmap string string) : list (HTTPException + Response) * gmap string string :=
  match rs with
  | [] => ([], sess)
  | r :: rs' =>
      let (answer, sess') := serve users rows r sess in
      let (answers, sess'') := browse users rows rs' sess' in
      (answer :: answers, sess'')
  end.

(** A login request that carries the name and password of a stored user. *)
Definition valid_login (users : list User) (r : Route) : Prop :=
  exists request u p user,
    r = Login request /\ method request = POST /\
    form request !! "username" = Some u /\ form request !! "password" = Some p /\
    In user users /\ username user = u /\ password user = p.

Definition is_dashboard (a : HTTPException + Response) : Prop :=
  exists rows, a = inr (Template "dashboard.html" rows).

End Web.

(** Concrete requests. *)
Module Visit.

Definition alice : Web.User :=
  {| Web.user_id := 1; Web.username := "alice"; Web.password := "secret" |}.

Definition post (name pass : string) : Web.Request :=
  {| Web.method := Web.POST;
     Web.form := <["username" := name]> (<["password" := pass]> ∅) |}.

(** A POST that carries a user name and no password. *)
Definition post_name_only (name : string) : Web.Request :=
  {| Web.method := Web.POST; Web.form := <["username" := name]> ∅ |}.

(** A configuration with a negative refresh interval, and one with an
    interval of 10^10 seconds. *)
Definition backwards : Config :=
  {| PRICE_THRESHOLD := 50000; MARKET_REFRESH_RATE := -1 |}.

Definition overlong : Config :=
  {| PRICE_THRESHOLD := 50000; MARKET_REFRESH_RATE := 10000000000 |}.

(** A table with one row of exchange1. *)
Definition one_row : list MarketData :=
  [{| md_id := Some 1%nat; md_exchange := "exchange1"; md_product := "BTC-USD";
      md_price := 100; md_timestamp := Some 1 |}].

End Visit.


(** * Properties *)

(** ** Rules of the program logic *)

Lemma hoare_ret {A} (a : A) (Q : A -> State -> Prop) E :
  hoare (Q a) (ret a) Q E.
Proof. intros st H. exact H. Qed.

Lemma hoare_raise {A} e (Q : A -> State -> Prop) (E : exn -> State -> Prop) :
  hoare (E e) (raise e) Q E.
Proof. intros st H. exact H. Qed.

Lemma hoare_modify f (Q : unit -> State -> Prop) E :
  hoare (fun st => Q tt (f st)) (modify f) Q E.
Proof. intros st H. exact H. Qed.

Lemma hoare_gets {A} (f : State -> A) (Q : A -> State -> Prop) E :
  hoare (fun st => Q (f st) st) (gets f) Q E.
Proof. intros st H. exact H. Qed.

Lemma hoare_bind {A B} P (m : M A) (k : A -> M B) R Q E :
  hoare P m R E -> (forall a, hoare (R a) (k a) Q E) -> hoare P (bind m k) Q E.
Proof.
  intros Hm Hk st HP. unfold bind. specialize (Hm st HP).
  destruct (m st) as [[a|e] st']; [exact (Hk a st' Hm) | exact Hm].
Qed.

Lemma hoare_conseq {A} (P P' : State -> Prop) (m : M A) (Q Q' : A -> State -> Prop)
    (E E' : exn -> State -> Prop) :
  hoare P' m Q' E' ->
  (forall st, P st -> P' st) ->
  (forall a st, Q' a st -> Q a st) ->
  (forall e st, E' e st -> E e st) ->
  hoare P m Q E.
Proof.
  intros Hm HP HQ HE st H. specialize (Hm st (HP st H)).
  destruct (m st) as [[a|e] st']; auto.
Qed.

Lemma hoare_try_except P m h R Q E :
  hoare P m Q R -> (forall e, hoare (R e) (h e) Q E) -> hoare P (try_except m h) Q E.
Proof.
  intros Hm Hh st HP. unfold try_except. specialize (Hm st HP).
  destruct (m st) as [[[]|e] st']; [exact Hm | exact (Hh e st' Hm)].
Qed.

(** The invariant of a [for] loop may mention the items already seen. *)
Lemma hoare_for_each {A} (I : list A -> State -> Prop) (body : A -> M unit) E l :
  (forall seen x rest, l = seen ++ x :: rest ->
     hoare (I seen) (body x) (fun _ => I (seen ++ [x])) E) ->
  hoare (I []) (for_each body l) (fun _ => I l) E.
Proof.
  intros Hbody.
  assert (G : forall todo seen, l = seen ++ todo ->
            hoare (I seen) (for_each body todo) (fun _ => I l) E).
  { induction todo as [|x todo IH]; intros seen Hl.
    - rewrite app_nil_r in Hl. subst seen. intros st H. exact H.
    - simpl. eapply hoare_bind; [exact (Hbody seen x todo Hl)|].
      intros []. apply IH. rewrite <- app_assoc. exact Hl. }
  apply (G l []). reflexivity.
Qed.

Lemma hoare_for_each_inv {A} (I : State -> Prop) (body : A -> M unit) E l :
  (forall x, In x l -> hoare I (body x) (fun _ => I) E) ->
  hoare I (for_each body l) (fun _ => I) E.
Proof.
  intros Hbody.
  apply (hoare_for_each (fun _ => I)). intros seen x rest Hl.
  apply Hbody. rewrite Hl. apply in_or_app. right. left. reflexivity.
Qed.

(** A loop over a list that holds an item on which the body cannot return
    does not return either. *)
Lemma hoare_for_each_raises {A} (I : State -> Prop) (body : A -> M unit) E l x0 :
  In x0 l ->
  (forall x, In x l -> hoare I (body x) (fun _ => I) E) ->
  hoare I (body x0) (fun _ _ => False) E ->
  hoare I (for_each body l) (fun _ _ => False) E.
Proof.
  intros Hin Hbody Hx0. induction l as [|x l IH]; [destruct Hin|].
  simpl. destruct Hin as [->|Hin].
  - eapply hoare_bind; [exact Hx0|]. intros [] st [].
  - eapply hoare_bind; [apply Hbody; left; reflexivity|].
    intros []. apply IH; [exact Hin|]. intros y Hy. apply Hbody. right. exact Hy.
Qed.

Lemma for_each_app {A} (body : A -> M unit) l1 l2 st :
  for_each body (l1 ++ l2) st = (for_each body l1 >> for_each body l2) st.
Proof.
  revert st. induction l1 as [|x l1 IH]; intros st; simpl.
  - reflexivity.
  - unfold bind. destruct (body x st) as [[[]|e] st']; [|reflexivity].
    rewrite IH. reflexivity.
Qed.

Lemma count_app {A} (f : A -> bool) l1 l2 :
  count f (l1 ++ l2) = (count f l1 + count f l2)%nat.
Proof. induction l1 as [|x l1 IH]; simpl; [reflexivity|]. destruct (f x); lia. Qed.

Lemma length_insert_rows now next pending :
  length (insert_rows now next pending) = length pending.
Proof. revert next. induction pending as [|d l IH]; intros next; simpl; [|rewrite IH]; reflexivity. Qed.

(** ** The steps of the loop *)

Section Properties.

Variable cfg : Config.
Variable w : World.
Variable exchanges : list Exchange.

Lemma sleep_returns secs st :
  sleeps w secs ->
  sleep w secs st =
    (Ok tt, set_clock (fun c => c + secs) (set_calls (fun l => l ++ [CallSleep secs]) st)).
Proof.
  intros [[Hlo Hhi] Hos]. run.
  destruct (Z.ltb_spec secs (- PyTime_MAX_SECONDS)); [unfold PyTime_MAX_SECONDS in *; lia|].
  destruct (Z.ltb_spec PyTime_MAX_SECONDS secs); [lia|].
  destruct (Z.ltb_spec secs 0); [lia|]. simpl. rewrite Hos. reflexivity.
Qed.

(** Whatever [time.sleep] does, it touches nothing but the clock and the
    record of calls. *)
Lemma sleep_effect secs st :
  exists f g, snd (sleep w secs st) = set_clock f (set_calls g st).
Proof.
  run. destruct ((secs <? - PyTime_MAX_SECONDS) || (PyTime_MAX_SECONDS <? secs)).
  { exists (fun c => c), (fun l => l ++ [CallSleep secs]). destruct st; reflexivity. }
  destruct (secs <? 0).
  { exists (fun c => c), (fun l => l ++ [CallSleep secs]). destruct st; reflexivity. }
  destruct (os_sleep_fault w secs); simpl.
  - exists (fun c => c), (fun l => l ++ [CallSleep secs]). destruct st; reflexivity.
  - eexists _, _. reflexivity.
Qed.

Lemma sleep_inv (I : State -> Prop) secs :
  (forall f st, I st -> I (set_calls f st)) ->
  (forall f st, I st -> I (set_clock f st)) ->
  hoare I (sleep w secs) (fun _ => I) (fun _ => I).
Proof.
  intros Hcalls Hclock st HI. destruct (sleep_effect secs st) as (f & g & H).
  destruct (sleep w secs st) as [[[]|e] s']; simpl in H; subst s'; apply Hclock, Hcalls, HI.
Qed.

(** [send_email_alert] swallows the failure of the delivery. *)
Lemma send_email_alert_returns s b st :
  exists st',
    send_email_alert w s b st = (Ok tt, st') /\
    emails st' = emails st ++ [{| subject := s; body := b |}] /\
    table st' = table st /\ session st' = session st /\ clock st' = clock st /\
    es_indices st' = es_indices st /\
    calls st' = calls st ++
      [CallSendmail {| subject := s; body := b |}
         (smtp_fault w (length (emails st)) {| subject := s; body := b |})].
Proof.
  run. destruct (smtp_fault w _ _); run; eexists; repeat split; reflexivity.
Qed.

Lemma collect_product_fetch_fails t ex product e st :
  get_price ex t product = Raise e ->
  collect_product cfg w t ex product st =
    (Raise e,
     set_calls (fun l => l ++ [CallGetPrice (exchange ex) product (Raise e)]) st).
Proof. intros H. unfold collect_product. rewrite H. reflexivity. Qed.

Lemma collect_product_commit_fails t ex product price e st :
  get_price ex t product = Ok price ->
  db_commit w t (MarketData_init (exchange ex) product price) = Some e ->
  exists st',
    collect_product cfg w t ex product st = (Raise e, st') /\
    emails st' = emails st /\ table st' = table st /\
    session st' =
      db_failed_commit w (session st ++ [MarketData_init (exchange ex) product price]) /\
    clock st' = clock st /\ log st' = log st /\
    calls st' = calls st ++
      [CallGetPrice (exchange ex) product (Ok price); CallCommit (Some e)].
Proof.
  intros Hf Hc. unfold collect_product. rewrite Hf. run. rewrite Hc. run.
  eexists. repeat split; try reflexivity.
  simpl. rewrite <- app_assoc. reflexivity.
Qed.

Lemma collect_product_stored t ex product price st :
  get_price ex t product = Ok price ->
  db_commit w t (MarketData_init (exchange ex) product price) = None ->
  exists st',
    collect_product cfg w t ex product st = (Ok tt, st') /\
    emails st' = emails st ++
      (if (PRICE_THRESHOLD cfg <? price)%float
       then [alert (exchange ex) product price] else []) /\
    table st' = table st ++
      insert_rows (clock st) (next_id (table st))
        (session st ++ [MarketData_init (exchange ex) product price]) /\
    session st' = [] /\ clock st' = clock st /\
    calls st' = calls st ++
      [CallGetPrice (exchange ex) product (Ok price); CallCommit None] ++
      (if (PRICE_THRESHOLD cfg <? price)%float
       then [CallSendmail (alert (exchange ex) product price)
               (smtp_fault w (length (emails st)) (alert (exchange ex) product price))]
       else []).
Proof.
  intros Hf Hc. unfold collect_product. rewrite Hf. run. rewrite Hc. run.
  destruct (PRICE_THRESHOLD cfg <? price)%float.
  - destruct (smtp_fault w _ _); eexists; (repeat split; simpl; try reflexivity);
      rewrite <- !app_assoc; reflexivity.
  - eexists. repeat split; simpl; try reflexivity.
    + rewrite app_nil_r. reflexivity.
    + rewrite <- !app_assoc. reflexivity.
Qed.

(** ** Alerts *)

(** C3. A fetched and stored observation raises an alert exactly when its
    price is strictly above the threshold, and then exactly one: the step
    appends [alert] to the alerts sent if [PRICE_THRESHOLD < price] and
    nothing otherwise.  With a threshold of 50000, a price of 50000 sends
    none and a price of 50000.01 sends one. *)
Theorem alert_iff_price_above_threshold t ex product price st :
  get_price ex t product = Ok price ->
  db_commit w t (MarketData_init (exchange ex) product price) = None ->
  exists st',
    collect_product cfg w t ex product st = (Ok tt, st') /\
    emails st' = emails st ++
      (if (PRICE_THRESHOLD cfg <? price)%float
       then [alert (exchange ex) product price] else []) /\
    (PRICE_THRESHOLD cfg = 50000%float -> price = 50000%float ->
       emails st' = emails st) /\
    (PRICE_THRESHOLD cfg = 50000%float -> price = 50000.01%float ->
       emails st' = emails st ++ [alert (exchange ex) product price]).
Proof.
  intros Hf Hc.
  destruct (collect_product_stored t ex product price st Hf Hc)
    as (st' & Hrun & He & _).
  exists st'. split; [exact Hrun|]. split; [exact He|]. split.
  - intros Ht Hp. rewrite He, Ht, Hp. apply app_nil_r.
  - intros Ht Hp. rewrite He, Ht, Hp. reflexivity.
Qed.

Lemma alerts_since_refl t st : alerts_since cfg w t st st.
Proof. exists []. split; [symmetry; apply app_nil_r | constructor]. Qed.

Lemma alerts_since_same t st0 st st' :
  emails st' = emails st -> alerts_since cfg w t st0 st -> alerts_since cfg w t st0 st'.
Proof. intros He (new & H & HF). exists new. rewrite He. split; assumption. Qed.

Lemma collect_product_alerts t st0 ex product :
  hoare (alerts_since cfg w t st0) (collect_product cfg w t ex product)
    (fun _ => alerts_since cfg w t st0) (fun _ => alerts_since cfg w t st0).
Proof.
  intros st HI.
  destruct (get_price ex t product) as [price|e] eqn:Hf.
  - destruct (db_commit w t (MarketData_init (exchange ex) product price)) as [e|] eqn:Hc.
    + destruct (collect_product_commit_fails t ex product price e st Hf Hc)
        as (st' & -> & He & _).
      exact (alerts_since_same t st0 st st' He HI).
    + destruct (collect_product_stored t ex product price st Hf Hc)
        as (st' & -> & He & _).
      destruct HI as (new & Hnew & HF).
      destruct (PRICE_THRESHOLD cfg <? price)%float eqn:Hgt.
      * exists (new ++ [alert (exchange ex) product price]).
        split; [rewrite He, Hnew, app_assoc; reflexivity|].
        apply Forall_app. split; [exact HF|]. constructor; [|constructor].
        exists ex, product, price. repeat split; assumption.
      * exists new. split; [rewrite He, app_nil_r; exact Hnew | exact HF].
  - rewrite (collect_product_fetch_fails t ex product e st Hf).
    exact (alerts_since_same t st0 st _ eq_refl HI).
Qed.

Lemma collect_exchange_alerts t st0 ex :
  hoare (alerts_since cfg w t st0) (collect_exchange cfg w t ex)
    (fun _ => alerts_since cfg w t st0) (fun _ => alerts_since cfg w t st0).
Proof.
  unfold collect_exchange.
  eapply hoare_bind with (R := fun _ => alerts_since cfg w t st0).
  { intros st HI. exact (alerts_since_same t st0 st _ eq_refl HI). }
  intros []. eapply hoare_bind with (R := fun _ => alerts_since cfg w t st0).
  { intros st HI. destruct (record_ticker ex t); exact HI. }
  intros []. apply hoare_for_each_inv. intros product _. apply collect_product_alerts.
Qed.

Lemma cycle_alerts t st : alerts_since cfg w t st (snd (cycle cfg w exchanges t st)).
Proof.
  assert (H : hoare (alerts_since cfg w t st) (cycle cfg w exchanges t)
                (fun _ => alerts_since cfg w t st) (fun _ => alerts_since cfg w t st)).
  { unfold cycle.
    eapply hoare_bind with (R := fun _ => alerts_since cfg w t st).
    { apply sleep_inv; intros f s HI; exact (alerts_since_same t st s _ eq_refl HI). }
    intros []. eapply hoare_try_except with (R := fun _ => alerts_since cfg w t st).
    { apply hoare_for_each_inv. intros ex _. apply collect_exchange_alerts. }
    intros e. eapply hoare_bind with (R := fun _ => alerts_since cfg w t st).
    { intros s HI. exact (alerts_since_same t st s _ eq_refl HI). }
    intros []. apply sleep_inv; intros f s HI;
      exact (alerts_since_same t st s _ eq_refl HI). }
  specialize (H st (alerts_since_refl t st)).
  destruct (cycle cfg w exchanges t st) as [[[]|e] st']; exact H.
Qed.

(** C4. When the commit of a fetched observation fails, the step raises at
    the commit, before the threshold is looked at: it sends no alert and
    writes no row, whatever the price; and no alert for that observation is
    among those the whole cycle sends. *)
Theorem no_alert_without_commit t ex product price e :
  get_price ex t product = Ok price ->
  db_commit w t (MarketData_init (exchange ex) product price) = Some e ->
  (forall st, exists st',
     collect_product cfg w t ex product st = (Raise e, st') /\
     emails st' = emails st /\ table st' = table st) /\
  (forall st, exists new,
     emails (snd (cycle cfg w exchanges t st)) = emails st ++ new /\
     ~ In (alert (exchange ex) product price) new).
Proof.
  intros Hf Hc. split.
  - intros st.
    destruct (collect_product_commit_fails t ex product price e st Hf Hc)
      as (st' & Hrun & He & Ht & _).
    exists st'. repeat split; assumption.
  - intros st. destruct (cycle_alerts t st) as (new & Hnew & HF).
    exists new. split; [exact Hnew|]. intros Hin.
    rewrite Forall_forall in HF. destruct (HF _ ltac:(apply list_elem_of_In; exact Hin))
      as (ex' & product' & price' & Heq & _ & Hc' & _).
    unfold alert in Heq. injection Heq as Hp1 Hx1 Hp2 Hpr Hx2.
    rewrite <- Hx1, <- Hp1, <- Hpr in Hc'. congruence.
Qed.

Example price_at_threshold_sends_nothing :
  emails (snd (collect_product Scenario.config (Scenario.reliable Scenario.delivered) 0
                 (Scenario.quoting "exchange2" 50000) "BTC-USD" Scenario.start)) = [].
Proof. reflexivity. Qed.

Example price_above_threshold_sends_one :
  emails (snd (collect_product Scenario.config (Scenario.reliable Scenario.delivered) 0
                 (Scenario.quoting "exchange2" 50000.01) "BTC-USD" Scenario.start))
    = [alert "exchange2" "BTC-USD" 50000.01].
Proof. reflexivity. Qed.

(** ** The pause after a failed cycle *)

(** C8. Where [time.sleep] takes the refresh interval and the 10 seconds
    and the system sleeps them: when the [try] block of cycle [t] raises,
    the handler logs the error and sleeps 10 seconds, and the next iteration
    sleeps the refresh interval again: between the failure and the next
    collection the loop pauses for the interval plus 10, strictly longer
    than the interval it pauses for after a cycle that went through. *)
Theorem cooldown_after_failed_cycle t st :
  sleeps w (MARKET_REFRESH_RATE cfg) ->
  sleeps w 10 ->
  let rate := MARKET_REFRESH_RATE cfg in
  let tried := for_each (collect_exchange cfg w t) exchanges (snd (sleep w rate st)) in
  exists st_end st_next,
    cycle cfg w exchanges t st = (Ok tt, st_end) /\
    sleep w rate st_end = (Ok tt, st_next) /\
    match fst tried with
    | Raise e =>
        log st_end = log (snd tried) ++ [ErrorTracking e] /\
        clock st_next - clock (snd tried) = rate + 10 /\
        rate < clock st_next - clock (snd tried)
    | Ok _ =>
        st_end = snd tried /\
        clock st_next - clock (snd tried) = rate
    end.
Proof.
  intros Hrate Hten rate tried. unfold cycle. fold rate.
  unfold bind at 1. subst tried. rewrite (sleep_returns rate st Hrate). simpl.
  unfold try_except.
  destruct (for_each _ exchanges _) as [[[]|e] st1]; simpl.
  - eexists. eexists. split; [reflexivity|].
    rewrite (sleep_returns rate st1 Hrate). split; [reflexivity|].
    split; [reflexivity|]. simpl. lia.
  - unfold bind at 1. unfold logging, modify.
    rewrite (sleep_returns 10 _ Hten).
    eexists. eexists. split; [reflexivity|].
    rewrite (sleep_returns rate _ Hrate). split; [reflexivity|].
    simpl. repeat split; lia.
Qed.

(** ** Index provisioning *)

Lemma ensure_index_present product index st :
  es_exists_fault w index = None ->
  index ∈ es_indices st ->
  exists st',
    ensure_index w product index st = (Ok tt, st') /\
    es_indices st' = es_indices st /\
    calls st' = calls st ++ [CallExists index].
Proof.
  intros Hx Hin. run. rewrite Hx. run.
  rewrite (bool_decide_eq_true_2 _ Hin). run.
  eexists. repeat split; reflexivity.
Qed.

Lemma ensure_index_absent product index st :
  es_exists_fault w index = None ->
  es_create_fault w index = None ->
  index ∉ es_indices st ->
  exists st',
    ensure_index w product index st = (Ok tt, st') /\
    es_indices st' = {[ index ]} ∪ es_indices st /\
    calls st' = calls st ++ [CallExists index; CallCreate index None].
Proof.
  intros Hx Hc Hout. run. rewrite Hx. run.
  rewrite (bool_decide_eq_false_2 _ Hout). run. rewrite Hc. run.
  rewrite (bool_decide_eq_false_2 _ Hout). run.
  eexists. repeat split; try reflexivity.
  simpl. rewrite <- app_assoc. reflexivity.
Qed.

(** C6. Provisioning an index twice: both calls return, the index exists
    after the first, the second leaves the store as it is and creates
    nothing, and over the two calls the index is created once if it was
    absent (and not at all if it was there). *)
Theorem ensure_index_idempotent product index st :
  es_exists_fault w index = None ->
  es_create_fault w index = None ->
  exists st1 st2,
    ensure_index w product index st = (Ok tt, st1) /\
    ensure_index w product index st1 = (Ok tt, st2) /\
    index ∈ es_indices st1 /\
    es_indices st2 = es_indices st1 /\
    count (is_created index) (calls st2) = count (is_created index) (calls st1) /\
    count (is_created index) (calls st2) =
      (count (is_created index) (calls st) +
       (if bool_decide (index ∈ es_indices st) then 0 else 1))%nat.
Proof.
  intros Hx Hc.
  assert (Hcr : count (is_created index) [CallExists index; CallCreate index None] = 1%nat).
  { simpl. rewrite bool_decide_eq_true_2; reflexivity. }
  destruct (decide (index ∈ es_indices st)) as [Hin|Hout].
  - destruct (ensure_index_present product index st Hx Hin) as (st1 & H1 & Hi1 & Hc1).
    assert (Hin1 : index ∈ es_indices st1) by (rewrite Hi1; exact Hin).
    destruct (ensure_index_present product index st1 Hx Hin1) as (st2 & H2 & Hi2 & Hc2).
    exists st1, st2. rewrite (bool_decide_eq_true_2 _ Hin).
    repeat split; try assumption.
    + rewrite Hc2, count_app. simpl. lia.
    + rewrite Hc2, Hc1, !count_app. simpl. lia.
  - destruct (ensure_index_absent product index st Hx Hc Hout) as (st1 & H1 & Hi1 & Hc1).
    assert (Hin1 : index ∈ es_indices st1).
    { rewrite Hi1. apply elem_of_union_l, elem_of_singleton. reflexivity. }
    destruct (ensure_index_present product index st1 Hx Hin1) as (st2 & H2 & Hi2 & Hc2).
    exists st1, st2. rewrite (bool_decide_eq_false_2 _ Hout).
    repeat split; try assumption.
    + rewrite Hc2, count_app. simpl. lia.
    + rewrite Hc2, Hc1, !count_app, Hcr. simpl. lia.
Qed.

Lemma startup_only_refl st : startup_only st st.
Proof.
  repeat split. exists []. split; [symmetry; apply app_nil_r | constructor].
Qed.

Lemma startup_only_trans st0 st1 st2 :
  startup_only st0 st1 -> startup_only st1 st2 -> startup_only st0 st2.
Proof.
  intros (Ht & Hs & He & Hk & n1 & Hc1 & HF1) (Ht' & Hs' & He' & Hk' & n2 & Hc2 & HF2).
  repeat split; try congruence.
  exists (n1 ++ n2). split; [rewrite Hc2, Hc1, app_assoc; reflexivity|].
  apply Forall_app. split; assumption.
Qed.

Lemma startup_only_calls st new :
  Forall (fun c => is_store_call c = true) new ->
  startup_only st (set_calls (fun l => l ++ new) st).
Proof. intros HF. repeat split. exists new. split; [reflexivity | exact HF]. Qed.

(** What one provisioning step does, whatever the store answers. *)
Lemma ensure_index_effect product index st :
  match ensure_index w product index st with
  | (r, st') =>
      startup_only st st' /\
      (es_indices st' = es_indices st \/
       es_create_fault w index = None /\ es_indices st' = {[ index ]} ∪ es_indices st) /\
      (es_exists_fault w index <> None \/
       (index ∉ es_indices st) /\ es_create_fault w index <> None ->
       exists e, r = Raise e)
  end.
Proof.
  run. destruct (es_exists_fault w index) as [e|] eqn:Hx; run.
  { split; [|split].
    - apply startup_only_calls. repeat constructor.
    - left. reflexivity.
    - intros _. exists e. reflexivity. }
  destruct (bool_decide (index ∈ es_indices st)) eqn:Hin; run.
  { split; [|split].
    - apply (startup_only_trans _ (set_calls (fun l => l ++ [CallExists index]) st)).
      + apply startup_only_calls. repeat constructor.
      + repeat split. exists []. split; [symmetry; apply app_nil_r | constructor].
    - left. reflexivity.
    - intros [H|[H _]]; [congruence|].
      apply bool_decide_eq_true_1 in Hin. contradiction. }
  destruct (es_create_fault w index) as [e|] eqn:Hc; run.
  { split; [|split].
    - repeat split. eexists. simpl. rewrite <- app_assoc. split; [reflexivity|].
      repeat constructor.
    - left. reflexivity.
    - intros _. exists e. reflexivity. }
  rewrite Hin. run.
  split; [|split].
  - repeat split. eexists. simpl. rewrite <- app_assoc. split; [reflexivity|].
    repeat constructor.
  - right. split; reflexivity.
  - intros [H|[_ H]]; congruence.
Qed.

(** C7. If the store fails on the index of some (exchange, product) pair
    at startup, either on the existence check or on the creation of an
    index that is not there, then [main] raises before its loop: whatever
    the number of iterations allowed, nothing was slept, no ticker was
    pushed, no price fetched, no row written; only the search store was
    called. *)
Theorem provisioning_failure_is_fatal ex product index n st :
  In ex exchanges ->
  In (product, index) (products ex) ->
  es_exists_fault w index <> None \/
    ((index ∉ es_indices st) /\ es_create_fault w index <> None) ->
  exists e st',
    main cfg w exchanges n st = (Raise e, st') /\
    table st' = table st /\ session st' = session st /\
    emails st' = emails st /\ clock st' = clock st /\
    exists new, calls st' = calls st ++ new /\
                Forall (fun c => is_store_call c = true) new.
Proof.
  intros Hex Hpair Hbad.
  set (I := fun s : State =>
    startup_only st s /\
    (index ∉ es_indices st -> es_create_fault w index <> None -> index ∉ es_indices s)).
  assert (Hstep : forall p i, hoare I (ensure_index w p i) (fun _ => I)
                                (fun _ => startup_only st)).
  { intros p i s [Hs Hkeep].
    pose proof (ensure_index_effect p i s) as H.
    destruct (ensure_index w p i s) as [[[]|e] s']; destruct H as (Hso & Hidx & _).
    - split; [exact (startup_only_trans _ _ _ Hs Hso)|].
      intros Hout Hfault. specialize (Hkeep Hout Hfault).
      destruct Hidx as [->|[Hnone ->]]; [exact Hkeep|].
      intros Hin. apply elem_of_union in Hin. destruct Hin as [Hin|Hin]; [|contradiction].
      apply elem_of_singleton in Hin. subst i. contradiction.
    - exact (startup_only_trans _ _ _ Hs Hso). }
  assert (Hbadstep : hoare I (ensure_index w product index) (fun _ _ => False)
                       (fun _ => startup_only st)).
  { intros s [Hs Hkeep].
    pose proof (ensure_index_effect product index s) as H.
    destruct (ensure_index w product index s) as [r s']; destruct H as (Hso & _ & Hraise).
    destruct Hraise as [e ->].
    - destruct Hbad as [Hb|[Hout Hb]]; [left; exact Hb|].
      destruct (es_exists_fault w index) eqn:Hx; [left; congruence|].
      right. split; [exact (Hkeep Hout Hb) | exact Hb].
    - exact (startup_only_trans _ _ _ Hs Hso). }
  assert (Hlog : forall entry, hoare I (logging entry) (fun _ => I)
                                 (fun _ => startup_only st)).
  { intros entry s [Hs Hkeep]. split; [|exact Hkeep].
    apply (startup_only_trans _ _ _ Hs). repeat split.
    exists []. split; [symmetry; apply app_nil_r | constructor]. }
  assert (Hmain : hoare I (main cfg w exchanges n) (fun _ _ => False)
                    (fun _ => startup_only st)).
  { unfold main. eapply hoare_bind with (R := fun _ _ => False).
    2: { intros [] s []. }
    unfold startup.
    eapply hoare_bind with (R := fun _ => I).
    { intros s HI. destruct HI as [Hs Hkeep]. destruct (db_create_all w); simpl.
      - exact Hs.
      - split; assumption. }
    intros []. eapply hoare_bind; [apply Hlog|].
    intros []. eapply hoare_bind with (R := fun _ _ => False).
    2: { intros [] s []. }
    unfold provision.
    apply (hoare_for_each_raises I _ _ exchanges ex Hex).
    - intros ex' _. eapply hoare_bind; [apply Hlog|].
      intros []. apply hoare_for_each_inv. intros item _. apply Hstep.
    - eapply hoare_bind; [apply Hlog|].
      intros []. apply (hoare_for_each_raises I _ _ (products ex) (product, index) Hpair).
      + intros item _. apply Hstep.
      + exact Hbadstep. }
  assert (HI : I st) by (split; [apply startup_only_refl | tauto]).
  specialize (Hmain st HI).
  destruct (main cfg w exchanges n st) as [[[]|e] st']; [destruct Hmain|].
  destruct Hmain as (Ht & Hs & He & Hk & Hnew).
  exists e, st'. repeat split; assumption.
Qed.

(** ** A ticker push that fails *)

(** C2, as the code has it. The ticker push is guarded by the [try] of the
    whole cycle only. Where [time.sleep] takes the interval and the 10
    seconds and the system sleeps them: if the exchanges before [ex] went
    through and the push of [ex] raises, the cycle ends there: the error is
    logged, the loop sleeps 10 seconds, and neither [ex] nor any later
    exchange has a price fetched or a row written in that cycle. *)
Theorem ticker_failure_ends_cycle t pre ex post e st st1 :
  exchanges = pre ++ ex :: post ->
  sleeps w (MARKET_REFRESH_RATE cfg) ->
  sleeps w 10 ->
  for_each (collect_exchange cfg w t) pre (snd (sleep w (MARKET_REFRESH_RATE cfg) st))
    = (Ok tt, st1) ->
  record_ticker ex t = Some e ->
  exists st',
    cycle cfg w exchanges t st = (Ok tt, st') /\
    table st' = table st1 /\ session st' = session st1 /\ emails st' = emails st1 /\
    log st' = log st1 ++ [ErrorTracking e] /\
    calls st' = calls st1 ++ [CallTicker (exchange ex) (Some e); CallSleep 10] /\
    clock st' = clock st1 + 10.
Proof.
  intros Hl Hrate Hten Hpre Hfail. unfold cycle. unfold bind at 1.
  rewrite (sleep_returns _ st Hrate) in *. simpl in Hpre.
  unfold try_except. rewrite Hl, for_each_app. unfold bind at 1. rewrite Hpre.
  simpl. unfold collect_exchange, bind at 1. unfold bind at 1. unfold bind at 1.
  unfold called, modify, outcome. rewrite Hfail. unfold raise.
  unfold bind, logging, modify. rewrite (sleep_returns 10 _ Hten).
  eexists. split; [reflexivity|]. simpl. repeat split.
  rewrite <- app_assoc. reflexivity.
Qed.

(** ** Rows written against prices fetched *)

Lemma pairs_app l1 l2 : pairs (l1 ++ l2) = (pairs l1 + pairs l2)%nat.
Proof. unfold pairs. rewrite map_app, list_sum_app. reflexivity. Qed.

Lemma tally_mono st0 k k' st : (k <= k')%nat -> tally st0 k st -> tally st0 k' st.
Proof. unfold tally. intros Hk H. repeat split; try tauto. lia. Qed.

(** A state that differs from [st] in neither the table nor the fetch and
    commit calls recorded has the tally of [st]. *)
Lemma tally_same st0 k st st' :
  table st' = table st ->
  fetches st' = fetches st -> fetched st' = fetched st ->
  commit_failures st' = commit_failures st ->
  tally st0 k st -> tally st0 k st'.
Proof.
  unfold tally, written. intros Ht H1 H2 H3 H. rewrite Ht, H1, H2, H3. exact H.
Qed.

Lemma tally_other_call st0 k st c :
  is_fetch c = false -> is_commit_failure c = false ->
  tally st0 k st -> tally st0 k (set_calls (fun l => l ++ [c]) st).
Proof.
  intros H1 H2. apply tally_same; unfold fetches, fetched, commit_failures; simpl;
    rewrite ?count_app; simpl; rewrite ?H1, ?H2; try lia.
  - reflexivity.
  - destruct c; simpl in *; try discriminate; lia.
Qed.

(** What one product step does to the counters. *)
Lemma collect_product_tally t ex product st :
  match collect_product cfg w t ex product st with
  | (Ok _, st') =>
      session st' = [] /\
      written st' = (written st + length (session st) + 1)%nat /\
      fetched st' = (fetched st + 1)%nat /\
      fetches st' = (fetches st + 1)%nat /\
      commit_failures st' = commit_failures st
  | (Raise _, st') =>
      written st' = written st /\
      fetches st' = (fetches st + 1)%nat /\
      (fetched st' = fetched st /\ commit_failures st' = commit_failures st \/
       fetched st' = (fetched st + 1)%nat /\
       commit_failures st' = (commit_failures st + 1)%nat)
  end.
Proof.
  unfold written, fetched, fetches, commit_failures.
  destruct (get_price ex t product) as [price|e] eqn:Hf.
  - destruct (db_commit w t (MarketData_init (exchange ex) product price)) as [e|] eqn:Hc.
    + destruct (collect_product_commit_fails t ex product price e st Hf Hc)
        as (st' & -> & _ & Ht & _ & _ & _ & Hcs).
      rewrite Ht, Hcs, !count_app. simpl. repeat split; try lia.
    + destruct (collect_product_stored t ex product price st Hf Hc)
        as (st' & -> & _ & Ht & Hs & _ & Hcs).
      rewrite Ht, Hcs, !count_app, length_app, length_insert_rows, length_app.
      destruct (PRICE_THRESHOLD cfg <? price)%float; simpl; repeat split; try lia; exact Hs.
  - rewrite (collect_product_fetch_fails t ex product e st Hf). simpl.
    rewrite !count_app. simpl. repeat split; lia.
Qed.

Lemma collect_product_counts t st0 k ex product :
  hoare (fun st => session st = [] /\ tally st0 k st)
    (collect_product cfg w t ex product)
    (fun _ st => session st = [] /\ tally st0 (S k) st)
    (fun _ => tally st0 (S k)).
Proof.
  intros st [Hs HT]. pose proof (collect_product_tally t ex product st) as H.
  rewrite Hs in H. simpl in H. unfold tally in *.
  destruct (collect_product cfg w t ex product st) as [[[]|e] st'].
  - destruct H as (Hs' & Hw & Hok & Hall & Hcf). split; [exact Hs'|].
    repeat split; lia.
  - destruct H as (Hw & Hall & [[Hok Hcf]|[Hok Hcf]]); repeat split; lia.
Qed.

Lemma collect_exchange_counts t st0 k ex :
  hoare (fun st => session st = [] /\ tally st0 k st)
    (collect_exchange cfg w t ex)
    (fun _ st => session st = [] /\ tally st0 (k + length (products ex)) st)
    (fun _ => tally st0 (k + length (products ex))).
Proof.
  unfold collect_exchange.
  eapply hoare_bind with (R := fun _ st => session st = [] /\ tally st0 k st).
  { intros st [Hs HT]. split; [exact Hs|]. apply tally_other_call; [reflexivity..|exact HT]. }
  intros []. eapply hoare_bind with (R := fun _ st => session st = [] /\ tally st0 k st).
  { intros st [Hs HT]. destruct (record_ticker ex t); simpl.
    - apply (tally_mono st0 k); [lia | exact HT].
    - split; assumption. }
  intros [].
  eapply hoare_conseq.
  - apply (hoare_for_each
      (fun seen st => session st = [] /\ tally st0 (k + length seen) st)
      (collect_product cfg w t ex)
      (fun _ => tally st0 (k + length (products ex)))).
    intros seen product rest Hl.
    eapply hoare_conseq; [apply (collect_product_counts t st0 (k + length seen))| | |].
    + intros st H. exact H.
    + intros [] st [Hs HT]. split; [exact Hs|].
      rewrite length_app. simpl. replace (k + (length seen + 1))%nat with (S (k + length seen)) by lia.
      exact HT.
    + intros e st HT. apply (tally_mono st0 (S (k + length seen))); [|exact HT].
      rewrite <- (length_map fst (products ex)), Hl, length_app. simpl. lia.
  - intros st [Hs HT]. simpl. rewrite Nat.add_0_r. split; assumption.
  - intros [] st [Hs HT]. rewrite length_map in HT. split; assumption.
  - intros e st HT. exact HT.
Qed.

(** [time.sleep] adds its call to the record and leaves the stores alone. *)
Lemma sleep_frame secs st :
  calls (snd (sleep w secs st)) = calls st ++ [CallSleep secs] /\
  table (snd (sleep w secs st)) = table st /\
  session (snd (sleep w secs st)) = session st /\
  emails (snd (sleep w secs st)) = emails st /\
  log (snd (sleep w secs st)) = log st.
Proof.
  run. destruct ((secs <? - PyTime_MAX_SECONDS) || (PyTime_MAX_SECONDS <? secs));
    [repeat split|].
  destruct (secs <? 0); [repeat split|].
  destruct (os_sleep_fault w secs); repeat split.
Qed.

Lemma sleep_tally st0 k secs :
  hoare (fun s => session s = [] /\ tally st0 k s) (sleep w secs)
    (fun _ s => session s = [] /\ tally st0 k s) (fun _ => tally st0 k).
Proof.
  intros st [Hs HT]. destruct (sleep_frame secs st) as (Hc & Ht & Hs' & _).
  assert (HT' : tally st0 k (snd (sleep w secs st))).
  { revert HT. apply tally_same; [exact Ht|..];
      unfold fetches, fetched, commit_failures; rewrite Hc, count_app; simpl; lia. }
  destruct (sleep w secs st) as [[[]|e] s']; simpl in *; [split; congruence | exact HT'].
Qed.

Lemma cycle_counts t st :
  session st = [] ->
  tally st (pairs exchanges) (snd (cycle cfg w exchanges t st)).
Proof.
  intros Hs0.
  assert (H0 : tally st 0 st) by (unfold tally; repeat split; lia).
  assert (H : hoare (fun s => session s = [] /\ tally st 0 s) (cycle cfg w exchanges t)
                (fun _ => tally st (pairs exchanges))
                (fun _ => tally st (pairs exchanges))).
  { unfold cycle.
    eapply hoare_bind with (R := fun _ s => session s = [] /\ tally st 0 s).
    { eapply hoare_conseq; [apply (sleep_tally st 0)| | |].
      - intros s H. exact H.
      - intros [] s H. exact H.
      - intros e s H. apply (tally_mono st 0); [lia | exact H]. }
    intros []. eapply hoare_try_except with (R := fun _ => tally st (pairs exchanges)).
    { eapply hoare_conseq.
      - apply (hoare_for_each
          (fun seen s => session s = [] /\ tally st (pairs seen) s)
          (collect_exchange cfg w t)
          (fun _ => tally st (pairs exchanges))).
        intros seen ex rest Hl.
        eapply hoare_conseq; [apply (collect_exchange_counts t st (pairs seen))| | |].
        + intros s H. exact H.
        + intros [] s [Hs HT]. split; [exact Hs|].
          rewrite pairs_app. unfold pairs at 2. simpl. rewrite Nat.add_0_r. exact HT.
        + intros e s HT. apply (tally_mono st (pairs seen + length (products ex))); [|exact HT].
          rewrite Hl, pairs_app. unfold pairs at 3. simpl. lia.
      - intros s H. exact H.
      - intros [] s [_ HT]. exact HT.
      - intros e s HT. exact HT. }
    intros e s HT.
    assert (HT1 : tally st (pairs exchanges)
                    (set_log (fun l => l ++ [ErrorTracking e]) s)).
    { revert HT. apply tally_same; reflexivity. }
    unfold bind, logging, modify.
    destruct (sleep_frame 10 (set_log (fun l => l ++ [ErrorTracking e]) s))
      as (Hc & Ht & _).
    assert (HT2 : tally st (pairs exchanges)
                    (snd (sleep w 10 (set_log (fun l => l ++ [ErrorTracking e]) s)))).
    { revert HT1. apply tally_same; [exact Ht|..];
        unfold fetches, fetched, commit_failures; rewrite Hc, count_app; simpl; lia. }
    destruct (sleep w 10 _) as [[[]|e'] s']; exact HT2. }
  specialize (H st (conj Hs0 H0)).
  destruct (cycle cfg w exchanges t st) as [[[]|e] st']; exact H.
Qed.

(** C5, as the code has it. In a cycle that starts with nothing pending in
    the session, every fetch that returned a price is either a row written
    or a commit that failed; so the rows written are at most the fetches
    that returned, which are at most the fetches attempted, which are at
    most the registered (exchange, product) pairs; the rows written are as
    many as the fetches that returned when no commit of the cycle fails; and
    a fetch that fails writes nothing and leaves nothing pending. *)
Theorem rows_written_against_fetches t st :
  session st = [] ->
  let st' := snd (cycle cfg w exchanges t st) in
  (written st <= written st' /\ fetched st <= fetched st' /\ fetches st <= fetches st' /\
   commit_failures st <= commit_failures st')%nat /\
  (fetched st' - fetched st =
     (written st' - written st) + (commit_failures st' - commit_failures st))%nat /\
  (written st' - written st <= fetched st' - fetched st)%nat /\
  (fetched st' - fetched st <= fetches st' - fetches st)%nat /\
  (fetches st' - fetches st <= pairs exchanges)%nat /\
  (commit_failures st' = commit_failures st ->
   (written st' - written st = fetched st' - fetched st)%nat) /\
  (forall ex product e s,
     get_price ex t product = Raise e ->
     table (snd (collect_product cfg w t ex product s)) = table s /\
     session (snd (collect_product cfg w t ex product s)) = session s).
Proof.
  intros Hs st'. pose proof (cycle_counts t st Hs) as H. fold st' in H.
  destruct H as (H1 & H2 & H3 & H4 & H5 & H6 & H7).
  split; [auto|]. split; [exact H5|]. split; [lia|]. split; [exact H6|].
  split; [exact H7|]. split; [intros Hno; lia|].
  intros ex product e s Hf.
  rewrite (collect_product_fetch_fails t ex product e s Hf). split; reflexivity.
Qed.

(** ** An exchange that fails *)

Lemma paused_frame rows0 k from now errors st st' :
  table st' = table st -> session st' = session st -> clock st' = clock st ->
  log st' = log st ->
  paused rows0 k from now errors st -> paused rows0 k from now errors st'.
Proof.
  unfold paused, tracking_errors. intros -> -> -> -> H. exact H.
Qed.

(** The product step logs prices and mail deliveries, never an error of
    the loop. *)
Lemma collect_product_tracking_errors t ex product st :
  tracking_errors (snd (collect_product cfg w t ex product st)) = tracking_errors st.
Proof.
  unfold tracking_errors. run. destruct (get_price ex t product); run; [|reflexivity].
  destruct (db_commit w t _); run; [reflexivity|].
  destruct (PRICE_THRESHOLD cfg <? _)%float; run.
  - destruct (smtp_fault w _ _); run; rewrite !count_app; simpl; lia.
  - rewrite !count_app. simpl. lia.
Qed.

Lemma collect_product_healthy t rows0 k (from : string -> Prop) now errors ex product :
  healthy w ex -> from (exchange ex) -> In product (map fst (products ex)) ->
  hoare (paused rows0 k from now errors) (collect_product cfg w t ex product)
    (fun _ => paused rows0 (S k) from now errors) (fun _ _ => False).
Proof.
  intros [_ Hh] Hfrom Hin st (Hs & Hk & He & new & Ht & Hlen & HF).
  destruct (Hh t product Hin) as (price & Hf & Hc).
  pose proof (collect_product_tracking_errors t ex product st) as Hlog.
  destruct (collect_product_stored t ex product price st Hf Hc)
    as (st' & Hrun & _ & Ht' & Hs' & Hk' & _).
  rewrite Hrun in *. simpl in Hlog.
  split; [exact Hs'|]. split; [congruence|]. split; [congruence|].
  rewrite Hs in Ht'. simpl in Ht'.
  eexists. split; [rewrite Ht', Ht, <- app_assoc; reflexivity|]. split.
  - rewrite length_app. simpl. lia.
  - apply Forall_app. split; [exact HF|]. constructor; [exact Hfrom | constructor].
Qed.

Lemma collect_exchange_healthy t rows0 k (from : string -> Prop) now errors ex :
  healthy w ex -> from (exchange ex) ->
  hoare (paused rows0 k from now errors) (collect_exchange cfg w t ex)
    (fun _ => paused rows0 (k + length (products ex)) from now errors) (fun _ _ => False).
Proof.
  intros Hh Hfrom. unfold collect_exchange.
  eapply hoare_bind with (R := fun _ => paused rows0 k from now errors).
  { intros st HG. exact (paused_frame _ _ _ _ _ st _ eq_refl eq_refl eq_refl eq_refl HG). }
  intros []. eapply hoare_bind with (R := fun _ => paused rows0 k from now errors).
  { intros st HG. rewrite (proj1 Hh t). exact HG. }
  intros []. eapply hoare_conseq.
  - apply (hoare_for_each (fun seen => paused rows0 (k + length seen) from now errors)
             (collect_product cfg w t ex) (fun _ _ => False)).
    intros seen product rest Hl.
    eapply hoare_conseq;
      [apply (collect_product_healthy t rows0 (k + length seen) from now errors
                ex product Hh Hfrom)| | |].
    + rewrite Hl. apply in_or_app. right. left. reflexivity.
    + intros st H. exact H.
    + intros [] st HG. rewrite length_app. simpl.
      replace (k + (length seen + 1))%nat with (S (k + length seen)) by lia. exact HG.
    + intros e st [].
  - intros st HG. simpl. rewrite Nat.add_0_r. exact HG.
  - intros [] st HG. rewrite length_map in HG. exact HG.
  - intros e st [].
Qed.

(** An exchange with a product and no fetch that returns: its turn raises
    and writes nothing. *)
Lemma collect_exchange_failing t rows0 k (from : string -> Prop) now errors ex :
  products ex <> [] ->
  (forall product, exists e, get_price ex t product = Raise e) ->
  hoare (paused rows0 k from now errors) (collect_exchange cfg w t ex)
    (fun _ _ => False) (fun _ => paused rows0 k from now errors).
Proof.
  intros Hne Hfail st HG. unfold collect_exchange.
  unfold bind at 1. unfold called, modify. unfold bind at 1.
  destruct (record_ticker ex t) as [e|]; simpl.
  - exact (paused_frame _ _ _ _ _ st _ eq_refl eq_refl eq_refl eq_refl HG).
  - destruct (products ex) as [|[product index] rest]; [congruence|]. simpl.
    destruct (Hfail product) as [e He]. unfold bind.
    rewrite (collect_product_fetch_fails t ex product e _ He).
    exact (paused_frame _ _ _ _ _ st _ eq_refl eq_refl eq_refl eq_refl HG).
Qed.

Lemma cycle_with_failing_exchange t rows0 k (from : string -> Prop) now errors pre ex post :
  exchanges = pre ++ ex :: post ->
  sleeps w (MARKET_REFRESH_RATE cfg) ->
  sleeps w 10 ->
  Forall (healthy w) pre ->
  (forall b, In b pre -> from (exchange b)) ->
  products ex <> [] ->
  (forall t product, exists e, get_price ex t product = Raise e) ->
  hoare (paused rows0 k from now errors) (cycle cfg w exchanges t)
    (fun _ => paused rows0 (k + pairs pre) from
                (now + (MARKET_REFRESH_RATE cfg + 10)) (S errors))
    (fun _ _ => False).
Proof.
  intros Hl Hrate Hten Hpre Hfrom Hne Hfail. unfold cycle.
  set (now1 := now + MARKET_REFRESH_RATE cfg).
  eapply hoare_bind with (R := fun _ => paused rows0 k from now1 errors).
  { intros st (Hs & Hk & He & Hnew). rewrite (sleep_returns _ st Hrate).
    split; [exact Hs|]. split; [simpl; subst now1; lia|]. split; [exact He | exact Hnew]. }
  intros [].
  eapply hoare_try_except
    with (R := fun _ => paused rows0 (k + pairs pre) from now1 errors).
  - intros st HG. rewrite Hl, for_each_app.
    revert st HG.
    eapply hoare_bind with (R := fun _ => paused rows0 (k + pairs pre) from now1 errors).
    + eapply hoare_conseq.
      * apply (hoare_for_each (fun seen => paused rows0 (k + pairs seen) from now1 errors)
                 (collect_exchange cfg w t) (fun _ _ => False)).
        intros seen b rest Hb.
        assert (Hin : In b pre) by (rewrite Hb; apply in_or_app; right; left; reflexivity).
        eapply hoare_conseq;
          [apply (collect_exchange_healthy t rows0 (k + pairs seen) from now1 errors b)| | |].
        -- rewrite Forall_forall in Hpre. apply Hpre, list_elem_of_In, Hin.
        -- apply Hfrom, Hin.
        -- intros st H. exact H.
        -- intros [] st HG. rewrite pairs_app. unfold pairs at 2. simpl.
           rewrite Nat.add_0_r, Nat.add_assoc. exact HG.
        -- intros e st [].
      * intros st HG. unfold pairs. simpl. rewrite Nat.add_0_r. exact HG.
      * intros [] st HG. exact HG.
      * intros e st [].
    + intros []. simpl. eapply hoare_bind with (R := fun _ _ => False).
      * apply collect_exchange_failing; [exact Hne | apply Hfail].
      * intros [] st [].
  - intros e st (Hs & Hk & He & Hnew). unfold bind, logging, modify.
    rewrite (sleep_returns 10 _ Hten).
    split; [exact Hs|]. split; [simpl; subst now1; lia|]. split; [|exact Hnew].
    unfold tracking_errors in *. simpl. rewrite count_app. simpl. lia.
Qed.

(** The turn of an exchange raises when its ticker push fails, or when the
    fetch or the commit of one of its products fails. *)
Lemma collect_exchange_raises t ex st :
  record_ticker ex t <> None \/
  (exists product, In product (map fst (products ex)) /\
     (forall price, get_price ex t product = Ok price ->
        db_commit w t (MarketData_init (exchange ex) product price) <> None)) ->
  exists e st', collect_exchange cfg w t ex st = (Raise e, st').
Proof.
  intros Hbad.
  assert (H : hoare (fun _ => True) (collect_exchange cfg w t ex)
                (fun _ _ => False) (fun _ _ => True)).
  { unfold collect_exchange.
    eapply hoare_bind with (R := fun _ _ => True); [intros s _; exact Logic.I|].
    intros []. destruct (record_ticker ex t) as [e|] eqn:Ht.
    { eapply hoare_bind with (R := fun _ _ => False); [|intros [] s []].
      intros s _. exact Logic.I. }
    destruct Hbad as [Hbad|(product & Hin & Hprod)]; [congruence|].
    eapply hoare_bind with (R := fun _ _ => True); [intros s _; exact Logic.I|].
    intros []. apply (hoare_for_each_raises (fun _ => True) _ _ _ product Hin).
    - intros p _ s _. destruct (collect_product cfg w t ex p s) as [[[]|e] s'];
        exact Logic.I.
    - intros s _.
      destruct (get_price ex t product) as [price|e] eqn:Hf.
      + destruct (db_commit w t (MarketData_init (exchange ex) product price))
          as [e|] eqn:Hc; [|exfalso; exact (Hprod price eq_refl Hc)].
        destruct (collect_product_commit_fails t ex product price e s Hf Hc)
          as (s' & -> & _). exact Logic.I.
      + rewrite (collect_product_fetch_fails t ex product e s Hf). exact Logic.I. }
  specialize (H st Logic.I).
  destruct (collect_exchange cfg w t ex st) as [[[]|e] st']; [destruct H|].
  exists e, st'. reflexivity.
Qed.

(** C1, as the code has it. The [try] is around the whole cycle, not
    around one exchange.  Where [time.sleep] takes the interval and the 10
    seconds and the system sleeps them, and with [ex] registered after the
    exchanges [pre] and before the exchanges [post]:
    - the turn of [ex] raises when its ticker push, a fetch or a commit
      fails;
    - whatever error the turn of [ex] raises, once [pre] went through, is
      caught and logged, the loop sleeps 10 seconds and the cycle is over:
      after the failure nothing is called but that sleep, so no exchange of
      [post] is polled in that cycle;
    - with [pre] healthy and a fetch of [ex] that always fails, [n]
      iterations return (no exception leaves the loop), each logs one error
      and pauses for the interval and 10 seconds, and the store gains
      exactly [n * pairs pre] rows, all of exchanges of [pre], none of an
      exchange, [ex] or one of [post], whose name no exchange of [pre]
      has. *)
Theorem failing_exchange_ends_each_cycle pre ex post :
  exchanges = pre ++ ex :: post ->
  sleeps w (MARKET_REFRESH_RATE cfg) ->
  sleeps w 10 ->
  (forall t st,
     record_ticker ex t <> None \/
     (exists product, In product (map fst (products ex)) /\
        (forall price, get_price ex t product = Ok price ->
           db_commit w t (MarketData_init (exchange ex) product price) <> None)) ->
     exists e st', collect_exchange cfg w t ex st = (Raise e, st')) /\
  (forall t e st st1 st2,
     for_each (collect_exchange cfg w t) pre (snd (sleep w (MARKET_REFRESH_RATE cfg) st))
       = (Ok tt, st1) ->
     collect_exchange cfg w t ex st1 = (Raise e, st2) ->
     exists st',
       cycle cfg w exchanges t st = (Ok tt, st') /\
       table st' = table st2 /\ session st' = session st2 /\ emails st' = emails st2 /\
       log st' = log st2 ++ [ErrorTracking e] /\
       calls st' = calls st2 ++ [CallSleep 10] /\
       clock st' = clock st2 + 10) /\
  (Forall (healthy w) pre ->
   products ex <> [] ->
   (forall t product, exists e, get_price ex t product = Raise e) ->
   forall n t st,
     session st = [] ->
     exists st' new,
       while_true cfg w exchanges n t st = (Ok tt, st') /\
       table st' = table st ++ new /\
       length new = (n * pairs pre)%nat /\
       Forall (fun d => exists b, In b pre /\ md_exchange d = exchange b) new /\
       (forall name, (forall b, In b pre -> exchange b <> name) ->
          Forall (fun d => md_exchange d <> name) new) /\
       tracking_errors st' = (tracking_errors st + n)%nat /\
       clock st' = clock st + Z.of_nat n * (MARKET_REFRESH_RATE cfg + 10)).
Proof.
  intros Hl Hrate Hten. split; [|split].
  - intros t st Hbad. exact (collect_exchange_raises t ex st Hbad).
  - intros t e st st1 st2 Hpre Hex. unfold cycle. unfold bind at 1.
    rewrite (sleep_returns _ st Hrate) in *. simpl in Hpre.
    unfold try_except. rewrite Hl, for_each_app. unfold bind at 1. rewrite Hpre.
    simpl. unfold bind at 1. rewrite Hex.
    unfold bind, logging, modify. rewrite (sleep_returns 10 _ Hten).
    eexists. split; [reflexivity|]. simpl. repeat split.
  - intros Hpre Hne Hfail n t st Hs.
    set (from := fun name : string => exists b, In b pre /\ name = exchange b).
    assert (Hloop : forall n t k now errors,
              hoare (paused (table st) k from now errors) (while_true cfg w exchanges n t)
                (fun _ => paused (table st) (k + n * pairs pre) from
                            (now + Z.of_nat n * (MARKET_REFRESH_RATE cfg + 10))
                            (errors + n))
                (fun _ _ => False)).
    { clear n t. induction n as [|n IH]; intros t k now errors.
      - intros s HG. simpl. rewrite !Nat.add_0_r, Z.add_0_r. exact HG.
      - simpl while_true. eapply hoare_bind.
        + apply (cycle_with_failing_exchange t (table st) k from now errors pre ex post);
            try assumption.
          intros b Hb. exists b. split; [exact Hb | reflexivity].
        + intros []. eapply hoare_conseq; [apply (IH (S t))| | |].
          * intros s H. exact H.
          * intros [] s HG.
            replace (k + S n * pairs pre)%nat with (k + pairs pre + n * pairs pre)%nat
              by lia.
            replace (now + Z.of_nat (S n) * (MARKET_REFRESH_RATE cfg + 10))
              with (now + (MARKET_REFRESH_RATE cfg + 10)
                    + Z.of_nat n * (MARKET_REFRESH_RATE cfg + 10)) by lia.
            replace (errors + S n)%nat with (S errors + n)%nat by lia.
            exact HG.
          * intros e s []. }
    assert (HG0 : paused (table st) 0 from (clock st) (tracking_errors st) st).
    { split; [exact Hs|]. split; [reflexivity|]. split; [reflexivity|].
      exists []. split; [symmetry; apply app_nil_r|]. split; [reflexivity | constructor]. }
    specialize (Hloop n t 0%nat (clock st) (tracking_errors st) st HG0).
    destruct (while_true cfg w exchanges n t st) as [[[]|e] st']; [|destruct Hloop].
    destruct Hloop as (_ & Hk & He & new & Ht & Hlen & HF).
    exists st', new. split; [reflexivity|]. split; [exact Ht|]. split; [exact Hlen|].
    split; [|split; [|split; [exact He | exact Hk]]].
    + eapply Forall_impl; [exact HF|]. intros d (b & Hb & Hd). exists b. split; assumption.
    + intros name Hnames. eapply Forall_impl; [exact HF|].
      intros d (b & Hb & Hd). rewrite Hd. apply Hnames, Hb.
Qed.

(** ** The session after a failed commit *)

(** The handler of the cycle does not touch the session: there is no
    [rollback] in [main]. *)
Lemma handler_keeps_session e st :
  session (snd ((logging (ErrorTracking e) >> sleep w 10) st)) = session st.
Proof.
  unfold bind, logging, modify.
  destruct (sleep_frame 10 (set_log (fun l => l ++ [ErrorTracking e]) st)) as (_ & _ & H & _).
  destruct (sleep w 10 _) as [[[]|e'] s']; exact H.
Qed.

(** What a later commit that succeeds writes is what the failed commit left
    in the session, then the new observation: which rows those are is
    decided by [db_failed_commit], that is by SQLAlchemy. *)
Lemma commit_after_failed_commit t ex product price e t' ex' product' price' st :
  get_price ex t product = Ok price ->
  db_commit w t (MarketData_init (exchange ex) product price) = Some e ->
  get_price ex' t' product' = Ok price' ->
  db_commit w t' (MarketData_init (exchange ex') product' price') = None ->
  let st1 := snd (collect_product cfg w t ex product st) in
  let st2 := snd (collect_product cfg w t' ex' product' st1) in
  table st1 = table st /\
  table st2 = table st ++
    insert_rows (clock st) (next_id (table st))
      (db_failed_commit w (session st ++ [MarketData_init (exchange ex) product price])
       ++ [MarketData_init (exchange ex') product' price']).
Proof.
  intros Hf Hc Hf' Hc' st1 st2. subst st2 st1.
  destruct (collect_product_commit_fails t ex product price e st Hf Hc)
    as (st1 & -> & _ & Ht & Hs & Hk & _).
  cbn [snd].
  destruct (collect_product_stored t' ex' product' price' st1 Hf' Hc')
    as (st2 & -> & _ & Ht' & _).
  simpl. split; [exact Ht|]. rewrite Ht', Ht, Hs, Hk. reflexivity.
Qed.

End Properties.

(** ** The scenario of two exchanges *)

Import Scenario.

(** C9. Two exchanges of one product each, the first always at 100, the
    second always at 60000, threshold 50000, interval 1, on an empty store.
    After three iterations the table has six rows, three of each exchange
    in turn, and three alerts were raised, all for the second exchange, one
    per cycle; whether the mails got through does not matter. *)
Theorem scenario_three_cycles (smtp : nat -> Email -> option exn) :
  let run3 := main config (reliable smtp) [exchange1; exchange2] 3 start in
  fst run3 = Ok tt /\
  length (table (snd run3)) = 6%nat /\
  map md_exchange (table (snd run3)) =
    ["exchange1"; "exchange2"; "exchange1"; "exchange2"; "exchange1"; "exchange2"] /\
  map md_price (table (snd run3)) =
    [100; 60000; 100; 60000; 100; 60000]%float /\
  emails (snd run3) =
    [alert "exchange2" "BTC-USD" 60000; alert "exchange2" "BTC-USD" 60000;
     alert "exchange2" "BTC-USD" 60000] /\
  clock (snd run3) = 3.
Proof.
  intros run3.
  pose (row := fun (id : nat) (name : string) (price : float) (now : Z) =>
    {| md_id := Some id; md_exchange := name; md_product := "BTC-USD";
       md_price := price; md_timestamp := Some now |}).
  assert (H : exists indices entries made,
            run3 = (Ok tt,
                    {| es_indices := indices; session := [];
                       table := [row 1%nat "exchange1" 100%float 1;
                                 row 2%nat "exchange2" 60000%float 1;
                                 row 3%nat "exchange1" 100%float 2;
                                 row 4%nat "exchange2" 60000%float 2;
                                 row 5%nat "exchange1" 100%float 3;
                                 row 6%nat "exchange2" 60000%float 3];
                       emails := [alert "exchange2" "BTC-USD" 60000;
                                  alert "exchange2" "BTC-USD" 60000;
                                  alert "exchange2" "BTC-USD" 60000];
                       log := entries; clock := 3; calls := made |})).
  { subst run3 row. vm_compute.
    repeat match goal with
    | |- context [match smtp ?n ?m with _ => _ end] => case (smtp n m); [intros ?|]
    end;
    eexists _, _, _; reflexivity. }
  destruct H as (indices & entries & made & ->). simpl. repeat split.
Qed.

(** ** The claims that fail on the code, at concrete inputs *)

(** C1 fails when the failing exchange is registered first: [exchangeA]
    always fails to fetch, [exchangeB] is healthy, and after three
    iterations the table is empty, although [exchangeB] has one product. *)
Lemma isolation_counterexample :
  let run := while_true config (reliable delivered) [exchangeA; exchangeB] 3 0 start in
  (forall t product, get_price exchangeA t product = Raise (External "timed out")) /\
  healthy (reliable delivered) exchangeB /\
  fst run = Ok tt /\
  table (snd run) = [] /\
  length (table (snd run)) <> (3 * length (products exchangeB))%nat.
Proof.
  split; [reflexivity|]. split.
  { split; [reflexivity|]. intros t product _. exists 100%float. split; reflexivity. }
  vm_compute. repeat split. discriminate.
Qed.

(** C2 fails: the ticker push of [exchangeT] raises, its [get_price] would
    answer, and the cycle fetches nothing and writes nothing. *)
Lemma ticker_counterexample :
  let run := cycle config (reliable delivered) [exchangeT] 0 start in
  record_ticker exchangeT 0 = Some (External "bulk index failed") /\
  get_price exchangeT 0 "BTC-USD" = Ok 100%float /\
  fst run = Ok tt /\
  fetches (snd run) = 0%nat /\
  table (snd run) = [].
Proof. vm_compute. repeat split. Qed.

(** C5 fails when a commit fails: one fetch returned a price and no row
    was written. *)
Lemma tally_counterexample :
  let st' := snd (cycle config locked [exchange1] 0 start) in
  fetches st' = 1%nat /\ fetched st' = 1%nat /\ written st' = 0%nat /\
  (written st' - written start)%nat <> (fetched st' - fetched start)%nat.
Proof. vm_compute. repeat split. discriminate. Qed.

(** ** The theorems at concrete inputs *)

Lemma reliable_sleeps smtp secs :
  0 <= secs <= PyTime_MAX_SECONDS -> sleeps (reliable smtp) secs.
Proof. intros H. split; [exact H | reflexivity]. Defined.

Lemma failing_exchange_ends_each_cycle_witness :
  let w := reliable delivered in
  let listed := [exchangeB; exchangeA; exchange2] in
  let st1 := snd (for_each (collect_exchange config w 0) [exchangeB]
                    (snd (sleep w 1 start))) in
  let st2 := snd (collect_exchange config w 0 exchangeA st1) in
  (exists e st', collect_exchange config w 0 exchangeA st1 = (Raise e, st')) /\
  (exists st',
     cycle config w listed 0 start = (Ok tt, st') /\
     table st' = table st2 /\
     log st' = log st2 ++ [ErrorTracking (External "timed out")] /\
     calls st' = calls st2 ++ [CallSleep 10] /\
     clock st' = clock st2 + 10) /\
  (exists st' new,
     while_true config w listed 3 0 start = (Ok tt, st') /\
     table st' = table start ++ new /\
     length new = 3%nat /\
     Forall (fun d => md_exchange d <> "A") new /\
     Forall (fun d => md_exchange d <> "exchange2") new /\
     tracking_errors st' = 3%nat /\
     clock st' = 33).
Proof.
  intros w listed st1 st2.
  destruct (failing_exchange_ends_each_cycle config w listed
              [exchangeB] exchangeA [exchange2] eq_refl
              (reliable_sleeps delivered 1 ltac:(unfold PyTime_MAX_SECONDS; lia))
              (reliable_sleeps delivered 10 ltac:(unfold PyTime_MAX_SECONDS; lia)))
    as (Hraises & Hcycle & Hrun).
  split; [|split].
  - apply Hraises. right. exists "BTC-USD". split; [left; reflexivity|].
    intros price H. discriminate H.
  - destruct (Hcycle 0%nat (External "timed out") start st1 st2)
      as (st' & H1 & H2 & _ & _ & H3 & H4 & H5).
    + vm_compute. reflexivity.
    + vm_compute. reflexivity.
    + exists st'. repeat split; assumption.
  - destruct (Hrun) with (n := 3%nat) (t := 0%nat) (st := start)
      as (st' & new & H1 & H2 & H3 & _ & H5 & H6 & H7).
    + constructor; [|constructor]. split; [reflexivity|].
      intros t product _. exists 100%float. split; reflexivity.
    + discriminate.
    + intros t product. exists (External "timed out"). reflexivity.
    + reflexivity.
    + exists st', new. split; [exact H1|]. split; [exact H2|]. split; [exact H3|].
      split; [|split; [|split; [exact H6 | exact H7]]].
      * apply H5. intros b [<-|[]]. discriminate.
      * apply H5. intros b [<-|[]]. discriminate.
Defined.

Lemma ticker_failure_ends_cycle_witness :
  let w := reliable delivered in
  let st1 := snd (for_each (collect_exchange config w 0) [exchangeB]
                    (snd (sleep w 1 start))) in
  exists st',
    cycle config w [exchangeB; exchangeT; exchange2] 0 start = (Ok tt, st') /\
    table st' = table st1 /\ session st' = session st1 /\ emails st' = emails st1 /\
    log st' = log st1 ++ [ErrorTracking (External "bulk index failed")] /\
    calls st' = calls st1 ++
      [CallTicker (exchange exchangeT) (Some (External "bulk index failed")); CallSleep 10] /\
    clock st' = clock st1 + 10.
Proof.
  intros w st1.
  apply (ticker_failure_ends_cycle config w [exchangeB; exchangeT; exchange2] 0
           [exchangeB] exchangeT [exchange2] (External "bulk index failed") start st1).
  - reflexivity.
  - apply reliable_sleeps. unfold PyTime_MAX_SECONDS. simpl. lia.
  - apply reliable_sleeps. unfold PyTime_MAX_SECONDS. lia.
  - vm_compute. reflexivity.
  - reflexivity.
Defined.

Lemma alert_iff_price_above_threshold_witness :
  let ex := quoting "exchange2" 50000.01 in
  exists st',
    collect_product config (reliable delivered) 0 ex "BTC-USD" start = (Ok tt, st') /\
    emails st' = emails start ++
      (if (PRICE_THRESHOLD config <? 50000.01)%float
       then [alert (exchange ex) "BTC-USD" 50000.01] else []) /\
    (PRICE_THRESHOLD config = 50000%float -> 50000.01%float = 50000%float ->
       emails st' = emails start) /\
    (PRICE_THRESHOLD config = 50000%float -> 50000.01%float = 50000.01%float ->
       emails st' = emails start ++ [alert (exchange ex) "BTC-USD" 50000.01]).
Proof.
  intros ex.
  apply (alert_iff_price_above_threshold config (reliable delivered) 0 ex
           "BTC-USD" 50000.01%float start); reflexivity.
Defined.

Lemma no_alert_without_commit_witness :
  (forall st, exists st',
     collect_product config locked 0 exchange2 "BTC-USD" st
       = (Raise (External "database is locked"), st') /\
     emails st' = emails st /\ table st' = table st) /\
  (forall st, exists new,
     emails (snd (cycle config locked [exchange2] 0 st)) = emails st ++ new /\
     ~ In (alert (exchange exchange2) "BTC-USD" 60000) new).
Proof.
  apply (no_alert_without_commit config locked [exchange2] 0 exchange2 "BTC-USD"
           60000%float (External "database is locked")); reflexivity.
Defined.

Lemma rows_written_against_fetches_witness :
  let st' := snd (cycle config locked [exchange1; exchange2] 0 start) in
  (written start <= written st' /\ fetched start <= fetched st' /\
   fetches start <= fetches st' /\ commit_failures start <= commit_failures st')%nat /\
  (fetched st' - fetched start =
     (written st' - written start) + (commit_failures st' - commit_failures start))%nat /\
  (written st' - written start <= fetched st' - fetched start)%nat /\
  (fetched st' - fetched start <= fetches st' - fetches start)%nat /\
  (fetches st' - fetches start <= pairs [exchange1; exchange2])%nat /\
  (commit_failures st' = commit_failures start ->
   (written st' - written start = fetched st' - fetched start)%nat) /\
  (forall ex product e s,
     get_price ex 0 product = Raise e ->
     table (snd (collect_product config locked 0 ex product s)) = table s /\
     session (snd (collect_product config locked 0 ex product s)) = session s).
Proof.
  apply (rows_written_against_fetches config locked [exchange1; exchange2] 0 start).
  reflexivity.
Defined.

Lemma ensure_index_idempotent_witness :
  exists st1 st2,
    ensure_index (reliable delivered) "BTC-USD" "exchange1.btc-usd" start = (Ok tt, st1) /\
    ensure_index (reliable delivered) "BTC-USD" "exchange1.btc-usd" st1 = (Ok tt, st2) /\
    "exchange1.btc-usd" ∈ es_indices st1 /\
    es_indices st2 = es_indices st1 /\
    count (is_created "exchange1.btc-usd") (calls st2) =
      count (is_created "exchange1.btc-usd") (calls st1) /\
    count (is_created "exchange1.btc-usd") (calls st2) =
      (count (is_created "exchange1.btc-usd") (calls start) +
       (if bool_decide ("exchange1.btc-usd" ∈ es_indices start) then 0 else 1))%nat.
Proof.
  apply (ensure_index_idempotent (reliable delivered) "BTC-USD" "exchange1.btc-usd" start);
    reflexivity.
Defined.

Lemma provisioning_failure_is_fatal_witness :
  exists e st',
    main config unreachable [exchange1] 3 start = (Raise e, st') /\
    table st' = table start /\ session st' = session start /\
    emails st' = emails start /\ clock st' = clock start /\
    exists new, calls st' = calls start ++ new /\
                Forall (fun c => is_store_call c = true) new.
Proof.
  apply (provisioning_failure_is_fatal config unreachable [exchange1] exchange1
           "BTC-USD" "exchange1.btc-usd" 3 start).
  - left. reflexivity.
  - left. reflexivity.
  - left. simpl. discriminate.
Defined.

Lemma cooldown_after_failed_cycle_witness :
  let w := reliable delivered in
  let tried := for_each (collect_exchange config w 0) [exchangeA]
                 (snd (sleep w 1 start)) in
  exists st_end st_next,
    cycle config w [exchangeA] 0 start = (Ok tt, st_end) /\
    sleep w 1 st_end = (Ok tt, st_next) /\
    log st_end = log (snd tried) ++ [ErrorTracking (External "timed out")] /\
    clock st_next - clock (snd tried) = 1 + 10 /\
    1 < clock st_next - clock (snd tried).
Proof.
  apply (cooldown_after_failed_cycle config (reliable delivered) [exchangeA] 0 start).
  - apply reliable_sleeps. unfold PyTime_MAX_SECONDS. simpl. lia.
  - apply reliable_sleeps. unfold PyTime_MAX_SECONDS. lia.
Defined.

(** * Further properties of the collection loop *)

Section Loop.

Variable cfg : Config.
Variable w : World.
Variable exchanges : list Exchange.

(** ** Invariants of the loop, from invariants of one product step *)

Lemma collect_exchange_inv (I : State -> Prop) t ex :
  (forall f st, I st -> I (set_calls f st)) ->
  (forall product, hoare I (collect_product cfg w t ex product) (fun _ => I) (fun _ => I)) ->
  hoare I (collect_exchange cfg w t ex) (fun _ => I) (fun _ => I).
Proof.
  intros Hcalls Hstep. unfold collect_exchange.
  eapply hoare_bind with (R := fun _ => I).
  { intros st HI. apply Hcalls, HI. }
  intros []. eapply hoare_bind with (R := fun _ => I).
  { intros st HI. destruct (record_ticker ex t); exact HI. }
  intros []. apply hoare_for_each_inv. intros product _. apply Hstep.
Qed.

Lemma cycle_inv (I : State -> Prop) t :
  (forall f st, I st -> I (set_calls f st)) ->
  (forall f st, I st -> I (set_log f st)) ->
  (forall f st, I st -> I (set_clock f st)) ->
  (forall ex product,
     hoare I (collect_product cfg w t ex product) (fun _ => I) (fun _ => I)) ->
  hoare I (cycle cfg w exchanges t) (fun _ => I) (fun _ => I).
Proof.
  intros Hcalls Hlog Hclock Hstep.
  assert (Hsleep : forall secs, hoare I (sleep w secs) (fun _ => I) (fun _ => I)).
  { intros secs. apply sleep_inv; assumption. }
  unfold cycle. eapply hoare_bind; [apply Hsleep|].
  intros []. eapply hoare_try_except with (R := fun _ => I).
  - apply hoare_for_each_inv. intros ex _. apply collect_exchange_inv; [exact Hcalls|].
    intros product. apply Hstep.
  - intros e. eapply hoare_bind with (R := fun _ => I); [|intros []; apply Hsleep].
    intros st HI. apply Hlog, HI.
Qed.

Lemma while_true_inv (I : State -> Prop) n t :
  (forall f st, I st -> I (set_calls f st)) ->
  (forall f st, I st -> I (set_log f st)) ->
  (forall f st, I st -> I (set_clock f st)) ->
  (forall t ex product,
     hoare I (collect_product cfg w t ex product) (fun _ => I) (fun _ => I)) ->
  hoare I (while_true cfg w exchanges n t) (fun _ => I) (fun _ => I).
Proof.
  intros Hcalls Hlog Hclock Hstep. revert t.
  induction n as [|n IH]; intros t; simpl.
  - intros st HI. exact HI.
  - eapply hoare_bind; [apply cycle_inv; auto|]. intros []. apply IH.
Qed.

Lemma startup_inv (I : State -> Prop) :
  (forall f st, I st -> I (set_calls f st)) ->
  (forall f st, I st -> I (set_log f st)) ->
  (forall f st, I st -> I (set_es_indices f st)) ->
  hoare I (startup cfg w exchanges) (fun _ => I) (fun _ => I).
Proof.
  intros Hcalls Hlog Hidx.
  assert (Hlogging : forall entry, hoare I (logging entry) (fun _ => I) (fun _ => I)).
  { intros entry st HI. apply Hlog, HI. }
  assert (Hensure : forall p i, hoare I (ensure_index w p i) (fun _ => I) (fun _ => I)).
  { intros p i st HI. run. destruct (es_exists_fault w i); run; [apply Hcalls, HI|].
    destruct (bool_decide (i ∈ es_indices st)) eqn:Hin; run.
    - apply Hlog, Hcalls, HI.
    - destruct (es_create_fault w i); run.
      + apply Hcalls, Hcalls, HI.
      + rewrite Hin. run. apply Hlog, Hidx, Hcalls, Hcalls, HI. }
  unfold startup. eapply hoare_bind with (R := fun _ => I).
  { intros st HI. destruct (db_create_all w); exact HI. }
  intros []. eapply hoare_bind; [apply Hlogging|].
  intros []. eapply hoare_bind with (R := fun _ => I); [|intros []; apply Hlogging].
  unfold provision. apply hoare_for_each_inv. intros ex _.
  eapply hoare_bind; [apply Hlogging|]. intros [].
  apply hoare_for_each_inv. intros item _. apply Hensure.
Qed.

Lemma main_inv (I : State -> Prop) n :
  (forall f st, I st -> I (set_calls f st)) ->
  (forall f st, I st -> I (set_log f st)) ->
  (forall f st, I st -> I (set_clock f st)) ->
  (forall f st, I st -> I (set_es_indices f st)) ->
  (forall t ex product,
     hoare I (collect_product cfg w t ex product) (fun _ => I) (fun _ => I)) ->
  hoare I (main cfg w exchanges n) (fun _ => I) (fun _ => I).
Proof.
  intros Hcalls Hlog Hclock Hidx Hstep. unfold main.
  eapply hoare_bind; [apply startup_inv; auto|].
  intros []. apply while_true_inv; auto.
Qed.

(** The outcome of a product step, in the three ways it can go. *)
Lemma collect_product_cases t ex product st :
  (exists e, get_price ex t product = Raise e /\
     collect_product cfg w t ex product st =
       (Raise e, set_calls (fun l => l ++ [CallGetPrice (exchange ex) product (Raise e)]) st)) \/
  (exists price e st',
     get_price ex t product = Ok price /\
     db_commit w t (MarketData_init (exchange ex) product price) = Some e /\
     collect_product cfg w t ex product st = (Raise e, st') /\
     emails st' = emails st /\ table st' = table st /\ clock st' = clock st) \/
  (exists price st',
     get_price ex t product = Ok price /\
     db_commit w t (MarketData_init (exchange ex) product price) = None /\
     collect_product cfg w t ex product st = (Ok tt, st') /\
     emails st' = emails st ++
       (if (PRICE_THRESHOLD cfg <? price)%float
        then [alert (exchange ex) product price] else []) /\
     table st' = table st ++
       insert_rows (clock st) (next_id (table st))
         (session st ++ [MarketData_init (exchange ex) product price]) /\
     session st' = [] /\ clock st' = clock st).
Proof.
  destruct (get_price ex t product) as [price|e] eqn:Hf.
  - destruct (db_commit w t (MarketData_init (exchange ex) product price)) as [e|] eqn:Hc.
    + right. left.
      destruct (collect_product_commit_fails cfg w t ex product price e st Hf Hc)
        as (st' & Hrun & He & Ht & _ & Hk & _).
      exists price, e, st'. repeat split; assumption.
    + right. right.
      destruct (collect_product_stored cfg w t ex product price st Hf Hc)
        as (st' & Hrun & He & Ht & Hs & Hk & _).
      exists price, st'. repeat split; assumption.
  - left. exists e. split; [reflexivity|].
    apply collect_product_fetch_fails. exact Hf.
Qed.

(** ** The loop does not stop *)

Lemma try_block_keeps_clock t now :
  hoare (fun s => clock s = now) (for_each (collect_exchange cfg w t) exchanges)
    (fun _ s => clock s = now) (fun _ s => clock s = now).
Proof.
  apply hoare_for_each_inv. intros ex _. apply collect_exchange_inv.
  - intros f s H. exact H.
  - intros product s Hs.
    destruct (collect_product_cases t ex product s)
      as [(e & _ & ->)|[(price & e & s' & _ & _ & -> & _ & _ & Hc)
                       |(price & s' & _ & _ & -> & _ & _ & _ & Hc)]];
      simpl; congruence.
Qed.

Lemma cycle_returns t st :
  sleeps w (MARKET_REFRESH_RATE cfg) ->
  sleeps w 10 ->
  exists st',
    cycle cfg w exchanges t st = (Ok tt, st') /\
    MARKET_REFRESH_RATE cfg <= clock st' - clock st <= MARKET_REFRESH_RATE cfg + 10.
Proof.
  intros Hrate Hten. unfold cycle. unfold bind at 1. rewrite (sleep_returns w _ st Hrate).
  match goal with
  | |- context [try_except _ _ ?s] =>
      pose proof (try_block_keeps_clock t (clock s) s eq_refl) as Hk
  end.
  unfold try_except.
  destruct (for_each (collect_exchange cfg w t) exchanges _) as [[[]|e] st2].
  - exists st2. split; [reflexivity|]. rewrite Hk. simpl. lia.
  - unfold bind, logging, modify. rewrite (sleep_returns w 10 _ Hten).
    eexists. split; [reflexivity|]. simpl. rewrite Hk. simpl. lia.
Qed.

(** X1. Where [time.sleep] takes the refresh interval and the 10 seconds
    and the system sleeps them, no error raised by an exchange, a store or
    the mail transport stops the loop: when each of their calls returns or
    raises, [n] iterations complete, and they sleep between [n] intervals
    and [n] intervals plus [n] cooldowns of 10 seconds. *)
Theorem loop_never_raises n t st :
  sleeps w (MARKET_REFRESH_RATE cfg) ->
  sleeps w 10 ->
  exists st',
    while_true cfg w exchanges n t st = (Ok tt, st') /\
    Z.of_nat n * MARKET_REFRESH_RATE cfg <= clock st' - clock st
      <= Z.of_nat n * (MARKET_REFRESH_RATE cfg + 10).
Proof.
  intros Hrate Hten. revert t st. induction n as [|n IH]; intros t st.
  - exists st. split; [reflexivity|]. simpl. lia.
  - destruct (cycle_returns t st Hrate Hten) as (st1 & Hrun & Hk).
    destruct (IH (S t) st1) as (st' & Hrun' & Hk').
    exists st'. split.
    + simpl. unfold bind. rewrite Hrun. exact Hrun'.
    + rewrite Nat2Z.inj_succ. nia.
Qed.

(** X2. A refresh interval that [time.sleep] refuses stops [main] at the
    first [sleep] of the loop, which is outside the [try]: once startup is
    done nothing is pushed, fetched or written, whatever the number of
    iterations allowed.  The error is [ValueError] for a negative interval
    down to -9223372036 seconds, and [OverflowError] below that and above
    9223372036 seconds. *)
Theorem refused_refresh_rate_is_fatal n st st1 :
  MARKET_REFRESH_RATE cfg < 0 \/ PyTime_MAX_SECONDS < MARKET_REFRESH_RATE cfg ->
  startup cfg w exchanges st = (Ok tt, st1) ->
  exists e,
    main cfg w exchanges (S n) st =
      (Raise e, set_calls (fun l => l ++ [CallSleep (MARKET_REFRESH_RATE cfg)]) st1) /\
    (- PyTime_MAX_SECONDS <= MARKET_REFRESH_RATE cfg < 0 ->
     e = ValueError "sleep length must be non-negative") /\
    (MARKET_REFRESH_RATE cfg < - PyTime_MAX_SECONDS \/
     PyTime_MAX_SECONDS < MARKET_REFRESH_RATE cfg ->
     e = OverflowError "timestamp too large to convert to C _PyTime_t").
Proof.
  intros Hrate Hstart. unfold main. unfold bind at 1. rewrite Hstart.
  simpl. unfold bind at 1. unfold cycle. unfold bind at 1. run.
  assert (Hmax : 0 < PyTime_MAX_SECONDS) by (unfold PyTime_MAX_SECONDS; lia).
  destruct (Z.ltb_spec (MARKET_REFRESH_RATE cfg) (- PyTime_MAX_SECONDS));
    destruct (Z.ltb_spec PyTime_MAX_SECONDS (MARKET_REFRESH_RATE cfg)); simpl;
    try (eexists; split; [reflexivity|]; split; [intros; lia | intros; reflexivity]).
  destruct (Z.ltb_spec (MARKET_REFRESH_RATE cfg) 0); [|lia].
  eexists. split; [reflexivity|]. split; [intros; reflexivity | intros; lia].
Qed.

(** ** What the store and the alerts keep *)

(** X3. The table only grows: whatever happens in a run of [main], the
    rows that were in the table are still there, unchanged and in place,
    followed by the rows the run wrote. *)
Theorem table_is_append_only n st :
  exists new, table (snd (main cfg w exchanges n st)) = table st ++ new.
Proof.
  assert (H : hoare (fun s => exists new, table s = table st ++ new)
                (main cfg w exchanges n)
                (fun _ s => exists new, table s = table st ++ new)
                (fun _ s => exists new, table s = table st ++ new)).
  { apply main_inv; try (intros f s H; exact H).
    intros t ex product s (new & Hnew).
    destruct (collect_product_cases t ex product s)
      as [(e & _ & ->)|[(price & e & s' & _ & _ & -> & _ & Ht & _)
                       |(price & s' & _ & _ & -> & _ & Ht & _)]].
    - exists new. exact Hnew.
    - exists new. rewrite Ht. exact Hnew.
    - eexists. rewrite Ht, Hnew, <- app_assoc. reflexivity. }
  specialize (H st (ex_intro _ [] (eq_sym (app_nil_r _)))).
  destruct (main cfg w exchanges n st) as [[[]|e] st']; exact H.
Qed.

(** X4. Alerts never outnumber rows: in any run of the loop, every alert
    sent comes after a commit that wrote at least one row. *)
Theorem alerts_never_outnumber_rows n t st :
  let st' := snd (while_true cfg w exchanges n t st) in
  (length (emails st) <= length (emails st'))%nat /\
  (length (emails st') - length (emails st) <= written st' - written st)%nat.
Proof.
  intros st'.
  set (I := fun s : State =>
    (length (emails st) <= length (emails s))%nat /\
    (written st <= written s)%nat /\
    (length (emails s) - length (emails st) <= written s - written st)%nat).
  assert (H : hoare I (while_true cfg w exchanges n t) (fun _ => I) (fun _ => I)).
  { apply while_true_inv; try (intros f s H; exact H).
    intros t' ex product s (H1 & H2 & H3). unfold I, written in *.
    destruct (collect_product_cases t' ex product s)
      as [(e & _ & ->)|[(price & e & s' & _ & _ & -> & He & Ht & _)
                       |(price & s' & _ & _ & -> & He & Ht & _)]].
    - simpl. lia.
    - rewrite He, Ht. lia.
    - rewrite He, Ht, !length_app, length_insert_rows, length_app.
      destruct (PRICE_THRESHOLD cfg <? price)%float; simpl; lia. }
  assert (HI : I st) by (unfold I; lia).
  specialize (H st HI). fold st'.
  destruct (while_true cfg w exchanges n t st) as [[[]|e] s]; subst st'; simpl;
    destruct H as (H1 & H2 & H3); split; assumption.
Qed.

Lemma alerts_collected_refl lo hi st : alerts_collected cfg w exchanges lo hi st st.
Proof.
  exists [], []. split; [symmetry; apply app_nil_r|].
  split; [symmetry; apply app_nil_r | constructor].
Qed.

Lemma alerts_collected_step lo hi st0 st st' cs ms :
  calls st' = calls st ++ cs ->
  emails st' = emails st ++ ms ->
  Forall (collected_alert cfg w exchanges lo hi cs) ms ->
  alerts_collected cfg w exchanges lo hi st0 st ->
  alerts_collected cfg w exchanges lo hi st0 st'.
Proof.
  intros Hc He Hms (made & new & Hmade & Hnew & HF).
  exists (made ++ cs), (new ++ ms).
  split; [rewrite Hc, Hmade, app_assoc; reflexivity|].
  split; [rewrite He, Hnew, app_assoc; reflexivity|].
  apply Forall_app. split.
  - eapply Forall_impl; [exact HF|].
    intros m (t & ex & product & price & H1 & H2 & H3 & H4 & H5 & H6 & H7).
    exists t, ex, product, price. repeat split; try tauto.
    apply in_or_app. left. tauto.
  - eapply Forall_impl; [exact Hms|].
    intros m (t & ex & product & price & H1 & H2 & H3 & H4 & H5 & H6 & H7).
    exists t, ex, product, price. repeat split; try tauto.
    apply in_or_app. right. tauto.
Qed.

Lemma alerts_collected_aside lo hi st0 st st' cs :
  calls st' = calls st ++ cs -> emails st' = emails st ->
  alerts_collected cfg w exchanges lo hi st0 st ->
  alerts_collected cfg w exchanges lo hi st0 st'.
Proof.
  intros Hc He. apply (alerts_collected_step lo hi st0 st st' cs []);
    [exact Hc | rewrite He; symmetry; apply app_nil_r | constructor].
Qed.

Lemma collect_product_collected lo hi st0 t ex product :
  (lo <= t < hi)%nat -> In ex exchanges -> In product (map fst (products ex)) ->
  hoare (alerts_collected cfg w exchanges lo hi st0) (collect_product cfg w t ex product)
    (fun _ => alerts_collected cfg w exchanges lo hi st0)
    (fun _ => alerts_collected cfg w exchanges lo hi st0).
Proof.
  intros Ht Hex Hp st HI.
  destruct (get_price ex t product) as [price|e] eqn:Hf.
  - destruct (db_commit w t (MarketData_init (exchange ex) product price)) as [e|] eqn:Hc.
    + destruct (collect_product_commit_fails cfg w t ex product price e st Hf Hc)
        as (st' & -> & He & _ & _ & _ & _ & Hcs).
      exact (alerts_collected_aside lo hi st0 st st' _ Hcs He HI).
    + destruct (collect_product_stored cfg w t ex product price st Hf Hc)
        as (st' & -> & He & _ & _ & _ & Hcs).
      apply (alerts_collected_step lo hi st0 st st' _ _ Hcs He); [|exact HI].
      destruct (PRICE_THRESHOLD cfg <? price)%float eqn:Hgt; [|constructor].
      constructor; [|constructor].
      exists t, ex, product, price. repeat split; try assumption; try lia.
      left. reflexivity.
  - rewrite (collect_product_fetch_fails cfg w t ex product e st Hf).
    eapply alerts_collected_aside; [ | | exact HI]; simpl; reflexivity.
Qed.

Lemma sleep_collected lo hi st0 secs :
  hoare (alerts_collected cfg w exchanges lo hi st0) (sleep w secs)
    (fun _ => alerts_collected cfg w exchanges lo hi st0)
    (fun _ => alerts_collected cfg w exchanges lo hi st0).
Proof.
  intros st HI. destruct (sleep_frame w secs st) as (Hc & _ & _ & He & _).
  pose proof (alerts_collected_aside lo hi st0 st _ _ Hc He HI) as H.
  destruct (sleep w secs st) as [[[]|e] s']; exact H.
Qed.

Lemma cycle_collected lo hi st0 t :
  (lo <= t < hi)%nat ->
  hoare (alerts_collected cfg w exchanges lo hi st0) (cycle cfg w exchanges t)
    (fun _ => alerts_collected cfg w exchanges lo hi st0)
    (fun _ => alerts_collected cfg w exchanges lo hi st0).
Proof.
  intros Ht. unfold cycle. eapply hoare_bind; [apply sleep_collected|].
  intros [].
  eapply hoare_try_except with (R := fun _ => alerts_collected cfg w exchanges lo hi st0).
  - apply hoare_for_each_inv. intros ex Hex. unfold collect_exchange.
    eapply hoare_bind with (R := fun _ => alerts_collected cfg w exchanges lo hi st0).
    { intros st HI. eapply alerts_collected_aside; [ | | exact HI]; simpl; reflexivity. }
    intros [].
    eapply hoare_bind with (R := fun _ => alerts_collected cfg w exchanges lo hi st0).
    { intros st HI. destruct (record_ticker ex t); exact HI. }
    intros []. apply hoare_for_each_inv. intros product Hp.
    apply collect_product_collected; assumption.
  - intros e.
    eapply hoare_bind with (R := fun _ => alerts_collected cfg w exchanges lo hi st0).
    { intros st HI.
      apply (alerts_collected_aside lo hi st0 st _ []); [|reflexivity|exact HI].
      simpl. symmetry. apply app_nil_r. }
    intros []. apply sleep_collected.
Qed.

(** X5. Every alert sent in a run of the loop stands for a price that was
    fetched in one of its cycles for a product of a registered exchange (the
    fetch is among the calls the run made), was strictly above the
    threshold, and whose commit succeeded: the loop never alerts on a price
    at or below the threshold, nor on an observation it could not store. *)
Theorem alerts_of_a_run_are_committed n t st :
  exists made new,
    calls (snd (while_true cfg w exchanges n t st)) = calls st ++ made /\
    emails (snd (while_true cfg w exchanges n t st)) = emails st ++ new /\
    Forall (fun m =>
      exists t' ex product price,
        (t <= t' < t + n)%nat /\
        In ex exchanges /\ In product (map fst (products ex)) /\
        m = alert (exchange ex) product price /\
        get_price ex t' product = Ok price /\
        In (CallGetPrice (exchange ex) product (Ok price)) made /\
        db_commit w t' (MarketData_init (exchange ex) product price) = None /\
        (PRICE_THRESHOLD cfg <? price)%float = true) new.
Proof.
  assert (H : forall k t', (t <= t')%nat -> (t' + k <= t + n)%nat ->
            hoare (alerts_collected cfg w exchanges t (t + n) st)
              (while_true cfg w exchanges k t')
              (fun _ => alerts_collected cfg w exchanges t (t + n) st)
              (fun _ => alerts_collected cfg w exchanges t (t + n) st)).
  { induction k as [|k IH]; intros t' Hlo Hhi; simpl.
    - intros s HI. exact HI.
    - eapply hoare_bind; [apply cycle_collected; lia|].
      intros []. apply IH; lia. }
  specialize (H n t (Nat.le_refl t) (Nat.le_refl _) st (alerts_collected_refl _ _ st)).
  destruct (while_true cfg w exchanges n t st) as [[[]|e] st']; exact H.
Qed.

(** ** Startup *)

Lemma ensure_index_post product index st :
  match ensure_index w product index st with
  | (Ok _, st') => index ∈ es_indices st' /\ es_indices st ⊆ es_indices st'
  | (Raise _, st') => es_indices st ⊆ es_indices st'
  end.
Proof.
  run. destruct (es_exists_fault w index); run; [reflexivity|].
  destruct (bool_decide (index ∈ es_indices st)) eqn:Hin; run.
  - apply bool_decide_eq_true_1 in Hin. split; [exact Hin | reflexivity].
  - destruct (es_create_fault w index); run; [reflexivity|].
    rewrite Hin. run. split.
    + apply elem_of_union_l, elem_of_singleton. reflexivity.
    + apply union_subseteq_r.
Qed.

(** X6. When startup returns, every index named by a product of a
    registered exchange exists in the search store, no index that was there
    has been removed, and nothing was written, sent or slept: the loop only
    ever starts on a provisioned store. *)
Theorem startup_provisions_every_index st st' :
  startup cfg w exchanges st = (Ok tt, st') ->
  (forall ex product index,
     In ex exchanges -> In (product, index) (products ex) -> index ∈ es_indices st') /\
  es_indices st ⊆ es_indices st' /\
  table st' = table st /\ session st' = session st /\
  emails st' = emails st /\ clock st' = clock st.
Proof.
  intros Hrun.
  set (covered := fun (l : list Exchange) (s : State) =>
    es_indices st ⊆ es_indices s /\
    forall ex product index,
      In ex l -> In (product, index) (products ex) -> index ∈ es_indices s).
  assert (Hlog : forall l entry,
            hoare (covered l) (logging entry) (fun _ => covered l) (fun _ _ => True)).
  { intros l entry s H. exact H. }
  assert (Hprov : hoare (covered []) (provision w exchanges)
                    (fun _ => covered exchanges) (fun _ _ => True)).
  { unfold provision. apply hoare_for_each. intros seen ex rest Hl.
    eapply hoare_bind; [apply Hlog|]. intros [].
    eapply hoare_conseq.
    - apply (hoare_for_each
        (fun items s => covered seen s /\
           forall product index, In (product, index) items -> index ∈ es_indices s)
        (fun item => ensure_index w (fst item) (snd item)) (fun _ _ => True)).
      intros items item more Hitems s [[Hsub Hseen] Hitem].
      pose proof (ensure_index_post (fst item) (snd item) s) as Hpost.
      destruct (ensure_index w (fst item) (snd item) s) as [[[]|e] s']; [|exact Logic.I].
      destruct Hpost as [Hin Hmono]. split; [split|].
      + etransitivity; eassumption.
      + intros ex' p i Hex' Hp. apply Hmono. eapply Hseen; eassumption.
      + intros p i Hp. apply in_app_or in Hp. destruct Hp as [Hp|[Hp|[]]].
        * apply Hmono. eapply Hitem; eassumption.
        * rewrite Hp in Hin. exact Hin.
    - intros s H. split; [exact H|]. intros p i [].
    - intros [] s [[Hsub Hseen] Hitem]. split; [exact Hsub|].
      intros ex' p i Hex' Hp. apply in_app_or in Hex'. destruct Hex' as [Hex'|[<-|[]]].
      + eapply Hseen; eassumption.
      + eapply Hitem; eassumption.
    - intros e s _. exact Logic.I. }
  assert (Hcov : hoare (covered []) (startup cfg w exchanges)
                   (fun _ => covered exchanges) (fun _ _ => True)).
  { unfold startup. eapply hoare_bind with (R := fun _ => covered []).
    { intros s H. destruct (db_create_all w); simpl; [exact Logic.I | exact H]. }
    intros []. eapply hoare_bind; [apply Hlog|].
    intros []. eapply hoare_bind; [exact Hprov|]. intros []. apply Hlog. }
  assert (H0 : covered [] st).
  { split; [reflexivity|]. intros ex p i []. }
  specialize (Hcov st H0). rewrite Hrun in Hcov. destruct Hcov as [Hsub Hall].
  set (kept := fun s : State =>
    table s = table st /\ session s = session st /\
    emails s = emails st /\ clock s = clock st).
  assert (Hkept : hoare kept (startup cfg w exchanges) (fun _ => kept) (fun _ => kept)).
  { apply startup_inv; intros f s H; exact H. }
  specialize (Hkept st (conj eq_refl (conj eq_refl (conj eq_refl eq_refl)))).
  rewrite Hrun in Hkept. destruct Hkept as (Ht & Hs & He & Hk).
  repeat split; assumption.
Qed.

Lemma ensure_index_present_state product index st :
  es_exists_fault w index = None ->
  index ∈ es_indices st ->
  ensure_index w product index st =
    (Ok tt,
     set_log (fun l => l ++ [InfoIndexCreated product])
       (set_calls (fun l => l ++ [CallExists index]) st)).
Proof.
  intros Hx Hin. run. rewrite Hx. run.
  rewrite (bool_decide_eq_true_2 _ Hin). reflexivity.
Qed.

(** X7. Provisioning a store that already has every index, and answers
    the existence checks, returns without a single [create] call and leaves
    the set of indices as it was: restarting the tracker creates nothing. *)
Theorem provision_on_provisioned_store st :
  (forall ex product index,
     In ex exchanges -> In (product, index) (products ex) ->
     index ∈ es_indices st /\ es_exists_fault w index = None) ->
  exists st',
    provision w exchanges st = (Ok tt, st') /\
    es_indices st' = es_indices st /\
    count is_create (calls st') = count is_create (calls st) /\
    table st' = table st.
Proof.
  intros Hall.
  set (I := fun s : State =>
    es_indices s = es_indices st /\
    count is_create (calls s) = count is_create (calls st) /\ table s = table st).
  assert (H : hoare I (provision w exchanges) (fun _ => I) (fun _ _ => False)).
  { unfold provision.
    apply (hoare_for_each (fun _ => I)). intros seen ex rest Hl.
    assert (Hex : In ex exchanges).
    { rewrite Hl. apply in_or_app. right. left. reflexivity. }
    eapply hoare_bind with (R := fun _ => I).
    { intros s HI. exact HI. }
    intros []. apply (hoare_for_each (fun _ => I)). intros items [p i] more Hitems.
    assert (Hp : In (p, i) (products ex)).
    { rewrite Hitems. apply in_or_app. right. left. reflexivity. }
    destruct (Hall ex p i Hex Hp) as [Hin Hx].
    intros s (Hi & Hc & Ht). simpl.
    assert (Hin' : i ∈ es_indices s) by (rewrite Hi; exact Hin).
    rewrite (ensure_index_present_state p i s Hx Hin').
    split; [exact Hi|]. split; [|exact Ht].
    simpl. rewrite count_app. simpl. lia. }
  specialize (H st (conj eq_refl (conj eq_refl eq_refl))).
  destruct (provision w exchanges st) as [[[]|e] st']; [|destruct H].
  destruct H as (Hi & Hc & Ht). exists st'. repeat split; assumption.
Qed.

(** ** A run in which nothing fails *)

Lemma ordered_frame rows0 keys now st st' :
  table st' = table st -> session st' = session st -> clock st' = clock st ->
  ordered rows0 keys now st -> ordered rows0 keys now st'.
Proof.
  intros Ht Hs Hk (H1 & H2 & H3). split; [congruence|]. split; [congruence|].
  rewrite Ht. exact H3.
Qed.

Lemma collect_product_ordered t rows0 keys now ex product :
  healthy w ex -> In product (map fst (products ex)) ->
  hoare (ordered rows0 keys now) (collect_product cfg w t ex product)
    (fun _ => ordered rows0 (keys ++ [(exchange ex, product)]) now) (fun _ _ => False).
Proof.
  intros [_ Hh] Hin st (Hs & Hk & new & Ht & Hkeys).
  destruct (Hh t product Hin) as (price & Hf & Hc).
  destruct (collect_product_stored cfg w t ex product price st Hf Hc)
    as (st' & -> & _ & Ht' & Hs' & Hk' & _).
  split; [exact Hs'|]. split; [congruence|].
  rewrite Hs in Ht'. simpl in Ht'.
  eexists. split; [rewrite Ht', Ht, <- app_assoc; reflexivity|].
  rewrite map_app, Hkeys. reflexivity.
Qed.

Lemma collect_exchange_ordered t rows0 keys now ex :
  healthy w ex ->
  hoare (ordered rows0 keys now) (collect_exchange cfg w t ex)
    (fun _ => ordered rows0 (keys ++ registered [ex]) now) (fun _ _ => False).
Proof.
  intros Hh. unfold collect_exchange.
  eapply hoare_bind with (R := fun _ => ordered rows0 keys now).
  { intros st HO. exact (ordered_frame _ _ _ st _ eq_refl eq_refl eq_refl HO). }
  intros []. eapply hoare_bind with (R := fun _ => ordered rows0 keys now).
  { intros st HO. rewrite (proj1 Hh t). exact HO. }
  intros []. eapply hoare_conseq.
  - apply (hoare_for_each
             (fun seen => ordered rows0 (keys ++ map (fun p => (exchange ex, p)) seen) now)
             (collect_product cfg w t ex) (fun _ _ => False)).
    intros seen product rest Hl.
    eapply hoare_conseq;
      [apply (collect_product_ordered t rows0
                (keys ++ map (fun p => (exchange ex, p)) seen) now ex product Hh)| | |].
    + rewrite Hl. apply in_or_app. right. left. reflexivity.
    + intros st H. exact H.
    + intros [] st HO. rewrite map_app, app_assoc. exact HO.
    + intros e st [].
  - intros st HO. simpl. rewrite app_nil_r. exact HO.
  - intros [] st HO. unfold registered. simpl. rewrite app_nil_r.
    rewrite map_map in HO. exact HO.
  - intros e st [].
Qed.

Lemma registered_app l1 l2 : registered (l1 ++ l2) = registered l1 ++ registered l2.
Proof. unfold registered. apply flat_map_app. Qed.

Lemma cycle_ordered t rows0 keys now :
  sleeps w (MARKET_REFRESH_RATE cfg) ->
  Forall (healthy w) exchanges ->
  hoare (ordered rows0 keys now) (cycle cfg w exchanges t)
    (fun _ => ordered rows0 (keys ++ registered exchanges) (now + MARKET_REFRESH_RATE cfg))
    (fun _ _ => False).
Proof.
  intros Hrate Hall. unfold cycle.
  eapply hoare_bind
    with (R := fun _ => ordered rows0 keys (now + MARKET_REFRESH_RATE cfg)).
  { intros st (Hs & Hk & Hnew). rewrite (sleep_returns w _ st Hrate).
    split; [exact Hs|]. split; [simpl; rewrite Hk; reflexivity | exact Hnew]. }
  intros []. eapply hoare_try_except with (R := fun _ _ => False); [|intros e st []].
  eapply hoare_conseq.
  - apply (hoare_for_each
             (fun seen => ordered rows0 (keys ++ registered seen)
                            (now + MARKET_REFRESH_RATE cfg))
             (collect_exchange cfg w t) (fun _ _ => False)).
    intros seen ex rest Hl.
    eapply hoare_conseq;
      [apply (collect_exchange_ordered t rows0 (keys ++ registered seen)
                (now + MARKET_REFRESH_RATE cfg) ex)| | |].
    + rewrite Forall_forall in Hall. apply Hall, list_elem_of_In.
      rewrite Hl. apply in_or_app. right. left. reflexivity.
    + intros st H. exact H.
    + intros [] st HO. rewrite registered_app, app_assoc. exact HO.
    + intros e st [].
  - intros st HO. unfold registered. simpl. rewrite app_nil_r. exact HO.
  - intros [] st HO. exact HO.
  - intros e st [].
Qed.

(** X8. When every exchange is healthy, [time.sleep] takes the interval
    and the system sleeps it, and nothing is pending in the session at the
    start, [n] iterations write one row per registered (exchange, product)
    pair per cycle, in registration order, exchange after exchange and
    product after product, and sleep exactly [n] intervals: no cooldown is
    taken. *)
Theorem healthy_run_writes_in_registration_order n t st :
  sleeps w (MARKET_REFRESH_RATE cfg) ->
  Forall (healthy w) exchanges ->
  session st = [] ->
  exists st' new,
    while_true cfg w exchanges n t st = (Ok tt, st') /\
    table st' = table st ++ new /\
    map key new = times n (registered exchanges) /\
    clock st' = clock st + Z.of_nat n * MARKET_REFRESH_RATE cfg.
Proof.
  intros Hrate Hall Hs.
  assert (Hloop : forall n t keys now,
            hoare (ordered (table st) keys now) (while_true cfg w exchanges n t)
              (fun _ => ordered (table st) (keys ++ times n (registered exchanges))
                          (now + Z.of_nat n * MARKET_REFRESH_RATE cfg))
              (fun _ _ => False)).
  { clear n t. induction n as [|n IH]; intros t keys now.
    - intros s HO. simpl. rewrite app_nil_r, Z.add_0_r. exact HO.
    - simpl while_true. eapply hoare_bind; [apply (cycle_ordered t); assumption|].
      intros []. eapply hoare_conseq; [apply (IH (S t))| | |].
      + intros s H. exact H.
      + intros [] s HO. simpl times. rewrite app_assoc.
        replace (now + Z.of_nat (S n) * MARKET_REFRESH_RATE cfg)
          with (now + MARKET_REFRESH_RATE cfg + Z.of_nat n * MARKET_REFRESH_RATE cfg)
          by lia.
        exact HO.
      + intros e s []. }
  assert (H0 : ordered (table st) [] (clock st) st).
  { split; [exact Hs|]. split; [reflexivity|]. exists []. split; [|reflexivity].
    symmetry. apply app_nil_r. }
  specialize (Hloop n t [] (clock st) st H0).
  destruct (while_true cfg w exchanges n t st) as [[[]|e] st']; [|destruct Hloop].
  destruct Hloop as (_ & Hk & new & Ht & Hkeys).
  exists st', new. repeat split; assumption.
Qed.

(** ** The mail transport *)














End Loop.

(** * The web routes *)

Section Routes.

Import Web.

Variable users : list User.

Lemma head_filter_by u p :
  (exists user, In user users /\ username user = u /\ password user = p) <->
  exists user, head (filter_by users u p) = Some user.
Proof.
  unfold filter_by. split.
  - intros (user & Hin & Hu & Hp).
    assert (Hf : user ∈ filter (fun x => username x = u /\ password x = p) users).
    { apply list_elem_of_filter. split; [split; assumption | apply list_elem_of_In, Hin]. }
    destruct (filter _ users) as [|x l]; [inversion Hf|]. exists x. reflexivity.
  - intros (user & Hh).
    assert (Hf : user ∈ filter (fun x => username x = u /\ password x = p) users).
    { destruct (filter _ users) as [|x l]; [discriminate|]. injection Hh as ->. left. }
    apply list_elem_of_filter in Hf. destruct Hf as [[Hu Hp] Hin].
    exists user. split; [apply list_elem_of_In, Hin | split; assumption].
Qed.

(** X10. A POST to [/login] with both fields opens a session exactly when
    some stored user has that very name and that very password: then the
    answer is the redirect to the dashboard and the session holds the name;
    otherwise the answer is "Invalid credentials" and the session is left
    as it was. *)
Theorem login_checks_credentials request u p sess :
  method request = POST ->
  form request !! "username" = Some u ->
  form request !! "password" = Some p ->
  ((exists user, In user users /\ username user = u /\ password user = p) ->
   login users request sess = (inr (Redirect "dashboard"), <["username" := u]> sess)) /\
  (~ (exists user, In user users /\ username user = u /\ password user = p) ->
   login users request sess = (inr (Text "Invalid credentials"), sess)).
Proof.
  intros Hm Hu Hp. unfold login. rewrite Hm, Hu, Hp. split.
  - intros H. apply head_filter_by in H. destruct H as [user ->]. reflexivity.
  - intros H. destruct (head (filter_by users u p)) as [user|] eqn:Hh; [|reflexivity].
    exfalso. apply H, head_filter_by. exists user. exact Hh.
Qed.

(** X11. A request to [/login] that cannot be a valid login never touches
    the session: a GET or HEAD shows the form whatever the request carries,
    and a POST that lacks a field is answered by a 400 naming the first
    missing field, the user name before the password. *)
Theorem login_without_credentials request sess :
  (method request <> POST ->
   login users request sess = (inr (Template "login.html" None), sess)) /\
  (method request = POST -> form request !! "username" = None ->
   login users request sess = (inl (BadRequestKeyError "username"), sess)) /\
  (method request = POST -> is_Some (form request !! "username") ->
   form request !! "password" = None ->
   login users request sess = (inl (BadRequestKeyError "password"), sess)).
Proof.
  unfold login. split; [|split].
  - intros Hm. destruct (method request); [reflexivity | reflexivity | congruence].
  - intros -> ->. reflexivity.
  - intros -> [u ->] ->. reflexivity.
Qed.

(** X12. Whatever [/login] answers, it changes nothing in the session but
    the entry [username]; and unless it answers by the redirect to the
    dashboard (so also when it answers 400) it leaves the session exactly as
    it was: a login that fails does not log out the user who was logged
    in. *)
Theorem login_touches_only_username request sess :
  (forall k, k <> "username" -> snd (login users request sess) !! k = sess !! k) /\
  (fst (login users request sess) <> inr (Redirect "dashboard") ->
   snd (login users request sess) = sess).
Proof.
  unfold login. split.
  - intros k Hk.
    destruct (method request); try reflexivity.
    destruct (form request !! "username") as [u|]; [|reflexivity].
    destruct (form request !! "password") as [p|]; [|reflexivity].
    destruct (head (filter_by users u p)); [|reflexivity].
    simpl. apply lookup_insert_ne. congruence.
  - intros Hne.
    destruct (method request); try reflexivity.
    destruct (form request !! "username") as [u|]; [|reflexivity].
    destruct (form request !! "password") as [p|]; [|reflexivity].
    destruct (head (filter_by users u p)); [|reflexivity].
    exfalso. apply Hne. reflexivity.
Qed.

(** X13. [/logout] never fails, also without a session; it removes the
    entry [username] and nothing else, and doing it twice is doing it
    once. *)
Theorem logout_is_idempotent sess :
  snd (logout sess) !! "username" = None /\
  (forall k, k <> "username" -> snd (logout sess) !! k = sess !! k) /\
  logout (snd (logout sess)) = logout sess /\
  (sess !! "username" = None -> snd (logout sess) = sess).
Proof.
  unfold logout. simpl. split; [apply lookup_delete_eq|]. split; [|split].
  - intros k Hk. apply lookup_delete_ne. congruence.
  - f_equal. apply delete_delete_eq.
  - intros H. apply delete_id. exact H.
Qed.

(** X14. The dashboard after a login and after a logout: once a login has
    redirected to the dashboard, the dashboard shows every row of the
    table; once [/logout] was asked, it shows none and redirects to the
    login form, whoever was logged in. *)
Theorem dashboard_follows_the_session request rows sess :
  (fst (login users request sess) = inr (Redirect "dashboard") ->
   dashboard rows (snd (login users request sess))
     = Template "dashboard.html" (Some rows)) /\
  dashboard rows (snd (logout sess)) = Redirect "login".
Proof.
  split.
  - unfold login.
    destruct (method request); try discriminate.
    destruct (form request !! "username") as [u|]; [|discriminate].
    destruct (form request !! "password") as [p|]; [|discriminate].
    destruct (head (filter_by users u p)); [|discriminate].
    intros _. unfold dashboard. simpl. rewrite lookup_insert_eq. reflexivity.
  - unfold dashboard, logout. simpl. rewrite lookup_delete_eq. reflexivity.
Qed.

Lemma serve_keeps_logged_out rows r sess :
  sess !! "username" = None ->
  ~ valid_login users r ->
  snd (serve users rows r sess) !! "username" = None /\
  ~ is_dashboard (fst (serve users rows r sess)).
Proof.
  intros Hout Hbad. destruct r as [|request| | |ex product]; simpl.
  - split; [exact Hout|]. intros [x Hx]. discriminate.
  - unfold login.
    destruct (method request) eqn:Hm;
      try (split; [exact Hout | intros [x Hx]; discriminate]).
    destruct (form request !! "username") as [u|] eqn:Hu;
      [|split; [exact Hout | intros [x Hx]; discriminate]].
    destruct (form request !! "password") as [p|] eqn:Hp;
      [|split; [exact Hout | intros [x Hx]; discriminate]].
    destruct (head (filter_by users u p)) as [user|] eqn:Hh;
      [|split; [exact Hout | intros [x Hx]; discriminate]].
    exfalso. apply Hbad.
    destruct (proj2 (head_filter_by u p) (ex_intro _ user Hh)) as (v & Hin & Hvu & Hvp).
    exists request, u, p, v. repeat split; assumption.
  - split; [apply lookup_delete_eq|]. intros [x Hx]. discriminate.
  - split; [exact Hout|]. unfold dashboard. rewrite Hout. intros [x Hx]. discriminate.
  - split; [exact Hout|]. intros [x Hx]. discriminate.
Qed.

(** X15. Without a valid login the dashboard stays closed: from a session
    with no [username], whatever requests a client sends to whatever routes,
    in whatever order, as long as none is a login with the name and
    password of a stored user, no answer is the dashboard, and the session
    still has no [username] at the end. *)
Theorem dashboard_needs_a_valid_login rows rs sess :
  sess !! "username" = None ->
  Forall (fun r => ~ valid_login users r) rs ->
  Forall (fun a => ~ is_dashboard a) (fst (browse users rows rs sess)) /\
  snd (browse users rows rs sess) !! "username" = None.
Proof.
  revert sess. induction rs as [|r rs IH]; intros sess Hout Hall.
  - split; [constructor | exact Hout].
  - inversion Hall as [|? ? Hr Hrs]; subst.
    destruct (serve_keeps_logged_out rows r sess Hout Hr) as [Hout' Hno].
    simpl. destruct (serve users rows r sess) as [answer sess'].
    specialize (IH sess' Hout' Hrs).
    destruct (browse users rows rs sess') as [answers sess''].
    destruct IH as [IH1 IH2]. split; [constructor; assumption | exact IH2].
Qed.

End Routes.

(** * The views on what the collector wrote *)

Section Views.

Import Web.

Variable cfg : Config.
Variable w : World.
Variable exchanges : list Exchange.

Lemma plot_app rows new ex product :
  plot (rows ++ new) ex product =
    Plot {| title := product +:+ " prices on " +:+ ex;
            xlabel := "Timestamp"; ylabel := "Price";
            xs := map md_timestamp
                    (filter (fun d => md_exchange d = ex /\ md_product d = product) rows)
                  ++ map md_timestamp
                    (filter (fun d => md_exchange d = ex /\ md_product d = product) new);
            ys := map md_price
                    (filter (fun d => md_exchange d = ex /\ md_product d = product) rows)
                  ++ map md_price
                    (filter (fun d => md_exchange d = ex /\ md_product d = product) new) |}.
Proof. unfold plot. rewrite filter_app, !map_app. reflexivity. Qed.

Lemma main_table_grows n st :
  exists new, table (snd (main cfg w exchanges n st)) = table st ++ new.
Proof.
  assert (H : hoare (fun s => exists new, table s = table st ++ new)
                (main cfg w exchanges n)
                (fun _ s => exists new, table s = table st ++ new)
                (fun _ s => exists new, table s = table st ++ new)).
  { apply main_inv; try (intros f s H; exact H).
    intros t ex product s (new & Hnew).
    destruct (collect_product_cases cfg w t ex product s)
      as [(e & _ & ->)|[(price & e & s' & _ & _ & -> & _ & Ht & _)
                       |(price & s' & _ & _ & -> & _ & Ht & _)]].
    - exists new. exact Hnew.
    - exists new. rewrite Ht. exact Hnew.
    - eexists. rewrite Ht, Hnew, <- app_assoc. reflexivity. }
  specialize (H st (ex_intro _ [] (eq_sym (app_nil_r _)))).
  destruct (main cfg w exchanges n st) as [[[]|e] st']; exact H.
Qed.

(** X16. A run of the tracker only adds points to a plot: for every
    exchange and product, the two series plotted from the table after a run
    of [main] start with the series plotted before it, point for point. *)
Theorem plots_only_grow n st ex product :
  exists fig fig' more_x more_y,
    plot (table st) ex product = Plot fig /\
    plot (table (snd (main cfg w exchanges n st))) ex product = Plot fig' /\
    xs fig' = xs fig ++ more_x /\ ys fig' = ys fig ++ more_y /\
    length more_x = length more_y /\
    title fig' = title fig.
Proof.
  destruct (main_table_grows n st) as (new & ->).
  rewrite plot_app. unfold plot.
  eexists. eexists. eexists. eexists.
  split; [reflexivity|]. split; [reflexivity|]. simpl.
  split; [reflexivity|]. split; [reflexivity|]. split; [|reflexivity].
  rewrite !length_map. reflexivity.
Qed.

(** X17. An observation that was fetched and committed, with nothing else
    pending, is the new last point of the plot of its exchange and product,
    at the time of the commit and at the price as the table keeps it, which
    is the price fetched unless that is -0.0, kept as 0.0; the plot of any
    other exchange or product is what it was. *)
Theorem collected_observation_is_plotted t ex product price st :
  get_price ex t product = Ok price ->
  db_commit w t (MarketData_init (exchange ex) product price) = None ->
  session st = [] ->
  let st' := snd (collect_product cfg w t ex product st) in
  (exists fig,
     plot (table st) (exchange ex) product = Plot fig /\
     plot (table st') (exchange ex) product =
       Plot {| title := title fig; xlabel := xlabel fig; ylabel := ylabel fig;
               xs := xs fig ++ [Some (clock st)];
               ys := ys fig ++ [sqlite_real price] |}) /\
  ((price =? 0)%float = false -> sqlite_real price = price) /\
  (forall ex' product',
     (ex', product') <> (exchange ex, product) ->
     plot (table st') ex' product' = plot (table st) ex' product').
Proof.
  intros Hf Hc Hs st'. subst st'.
  destruct (collect_product_stored cfg w t ex product price st Hf Hc)
    as (s & -> & _ & Ht & _).
  cbn [snd]. rewrite Ht, Hs. simpl. split; [|split].
  - eexists. split; [reflexivity|]. rewrite plot_app. simpl.
    rewrite filter_cons_True by (split; reflexivity). reflexivity.
  - intros Hz. unfold sqlite_real. rewrite Hz. reflexivity.
  - intros ex' product' Hne. rewrite plot_app.
    rewrite filter_cons_False.
    + simpl. rewrite !app_nil_r. reflexivity.
    + simpl. intros [<- <-]. apply Hne. reflexivity.
Qed.

End Views.

(** * The further properties at concrete inputs *)

Import Web Visit.

Lemma loop_never_raises_witness :
  exists st',
    while_true config locked [exchangeA; exchangeT; exchange2] 3 0 start = (Ok tt, st') /\
    Z.of_nat 3 * MARKET_REFRESH_RATE config <= clock st' - clock start
      <= Z.of_nat 3 * (MARKET_REFRESH_RATE config + 10).
Proof.
  apply (loop_never_raises config locked [exchangeA; exchangeT; exchange2] 3 0 start).
  - split; [unfold PyTime_MAX_SECONDS; simpl; lia | reflexivity].
  - split; [unfold PyTime_MAX_SECONDS; lia | reflexivity].
Defined.

Lemma refused_refresh_rate_is_fatal_witness :
  let w := reliable delivered in
  let st1 := snd (startup backwards w [exchange1] start) in
  let st2 := snd (startup overlong w [exchange1] start) in
  main backwards w [exchange1] 3 start =
    (Raise (ValueError "sleep length must be non-negative"),
     set_calls (fun l => l ++ [CallSleep (-1)]) st1) /\
  main overlong w [exchange1] 3 start =
    (Raise (OverflowError "timestamp too large to convert to C _PyTime_t"),
     set_calls (fun l => l ++ [CallSleep 10000000000]) st2).
Proof.
  intros w st1 st2. split.
  - destruct (refused_refresh_rate_is_fatal backwards w [exchange1] 2 start st1)
      as (e & Hrun & Hvalue & _).
    + left. simpl. lia.
    + vm_compute. reflexivity.
    + rewrite Hrun, Hvalue; [reflexivity|]. unfold PyTime_MAX_SECONDS. simpl. lia.
  - destruct (refused_refresh_rate_is_fatal overlong w [exchange1] 2 start st2)
      as (e & Hrun & _ & Hoverflow).
    + right. unfold PyTime_MAX_SECONDS. simpl. lia.
    + vm_compute. reflexivity.
    + rewrite Hrun, Hoverflow; [reflexivity|]. right. unfold PyTime_MAX_SECONDS. simpl. lia.
Defined.

Lemma startup_provisions_every_index_witness :
  let st' := snd (startup config (reliable delivered) [exchange1; exchange2] start) in
  (forall ex product index,
     In ex [exchange1; exchange2] -> In (product, index) (products ex) ->
     index ∈ es_indices st') /\
  es_indices start ⊆ es_indices st' /\
  table st' = table start /\ session st' = session start /\
  emails st' = emails start /\ clock st' = clock start.
Proof.
  intros st'.
  apply (startup_provisions_every_index config (reliable delivered)
           [exchange1; exchange2] start st').
  vm_compute. reflexivity.
Defined.

Lemma provision_on_provisioned_store_witness :
  let st := set_es_indices (fun _ => {[ "exchange1.btc-usd" ]}) start in
  exists st',
    provision (reliable delivered) [exchange1] st = (Ok tt, st') /\
    es_indices st' = es_indices st /\
    count is_create (calls st') = count is_create (calls st) /\
    table st' = table st.
Proof.
  intros st. apply (provision_on_provisioned_store (reliable delivered) [exchange1] st).
  intros ex product index [<-|[]] [Hp|[]]. injection Hp as <- <-.
  split; [vm_compute; reflexivity | reflexivity].
Defined.

Lemma healthy_run_writes_in_registration_order_witness :
  exists st' new,
    while_true config (reliable delivered) [exchange1; exchange2] 3 0 start = (Ok tt, st') /\
    table st' = table start ++ new /\
    map key new = times 3 (registered [exchange1; exchange2]) /\
    clock st' = clock start + Z.of_nat 3 * MARKET_REFRESH_RATE config.
Proof.
  apply (healthy_run_writes_in_registration_order config (reliable delivered)
           [exchange1; exchange2] 3 0 start).
  - split; [unfold PyTime_MAX_SECONDS; simpl; lia | reflexivity].
  - repeat constructor; intros t product _; eexists; split; reflexivity.
  - reflexivity.
Defined.

Lemma login_checks_credentials_witness :
  ((exists user, In user [alice] /\ username user = "alice" /\ password user = "secret") ->
   login [alice] (post "alice" "secret") ∅
     = (inr (Redirect "dashboard"), <["username" := "alice"]> ∅)) /\
  (~ (exists user, In user [alice] /\ username user = "alice" /\ password user = "secret") ->
   login [alice] (post "alice" "secret") ∅ = (inr (Text "Invalid credentials"), ∅)).
Proof.
  apply (login_checks_credentials [alice] (post "alice" "secret") "alice" "secret" ∅);
    reflexivity.
Defined.

Lemma login_without_credentials_witness :
  login [alice] (post_name_only "alice") ∅ = (inl (BadRequestKeyError "password"), ∅).
Proof.
  apply (login_without_credentials [alice] (post_name_only "alice") ∅).
  - reflexivity.
  - exists "alice". reflexivity.
  - reflexivity.
Defined.

Lemma login_touches_only_username_witness :
  snd (login [alice] (post "alice" "wrong") (<["username" := "bob"]> ∅))
    = <["username" := "bob"]> ∅.
Proof.
  apply (proj2 (login_touches_only_username [alice] (post "alice" "wrong")
                  (<["username" := "bob"]> ∅))).
  discriminate.
Defined.

Lemma logout_is_idempotent_witness :
  snd (logout (∅ : gmap string string)) = ∅.
Proof.
  apply (proj2 (proj2 (proj2 (logout_is_idempotent ∅)))). reflexivity.
Defined.

Lemma dashboard_follows_the_session_witness :
  dashboard one_row (snd (login [alice] (post "alice" "secret") ∅))
    = Template "dashboard.html" (Some one_row).
Proof.
  apply (proj1 (dashboard_follows_the_session [alice] (post "alice" "secret") one_row ∅)).
  reflexivity.
Defined.

Lemma dashboard_needs_a_valid_login_witness :
  let rs := [Dashboard; Login (post "alice" "wrong"); Logout;
             PlotOf "exchange1" "BTC-USD"; Index; Dashboard] in
  Forall (fun a => ~ is_dashboard a) (fst (browse [alice] one_row rs ∅)) /\
  snd (browse [alice] one_row rs ∅) !! "username" = None.
Proof.
  intros rs. apply (dashboard_needs_a_valid_login [alice] one_row rs ∅).
  - reflexivity.
  - repeat constructor;
      intros (request & u & p & user & Heq & _ & _ & Hp & Hin & _ & Hpass);
      try discriminate.
    injection Heq as <-. destruct Hin as [<-|[]].
    vm_compute in Hp. injection Hp as <-. discriminate.
Defined.

Lemma collected_observation_is_plotted_witness :
  let ex := quoting "exchange1" (-0)%float in
  let st' := snd (collect_product config (reliable delivered) 0 ex "BTC-USD" start) in
  (exists fig,
     plot (table start) (exchange ex) "BTC-USD" = Plot fig /\
     plot (table st') (exchange ex) "BTC-USD" =
       Plot {| title := title fig; xlabel := xlabel fig; ylabel := ylabel fig;
               xs := xs fig ++ [Some (clock start)]; ys := ys fig ++ [0%float] |}) /\
  (((-0) =? 0)%float = false -> sqlite_real (-0)%float = (-0)%float) /\
  (forall ex' product',
     (ex', product') <> (exchange ex, "BTC-USD") ->
     plot (table st') ex' product' = plot (table start) ex' product').
Proof.
  intros ex.
  apply (collected_observation_is_plotted config (reliable delivered) 0 ex
           "BTC-USD" (-0)%float start); reflexivity.
Defined.
